(** * goFluentValidation: the struct-tag validator, embedded and verified

    Shallow embedding of [validator/validator.go].  The Go standard library
    calls the validator makes ([strings.Split], [strings.Trim],
    [strings.Join], [strconv.Atoi], [fmt.Errorf] with [%d], [reflect.Value],
    [regexp.MatchString]) are modelled in the modules [Strings], [Strconv],
    [Fmt], [Utf8], [Regexp] and [Reflect]; the validator itself lives in
    [Module validator] and keeps the names of the source.  The earlier
    revision of the package ([unnamed/part_000]) is embedded in
    [Module part_000], the serializer of [jsonSerilizer/json.go] in
    [Module jsonserilizer] and the registrations of [ExampleFour] in
    [Module ExampleFour].

    Platform: [int] is 64 bits wide (every 64-bit Go port). *)

From Stdlib Require Import ZArith NArith String Ascii List Lia Bool DecimalString.
From stdpp Require Import gmap strings.
Import ListNotations.

#[local] Set Warnings "-register-all".
Local Open Scope Z_scope.

(* ===================================================================== *)
(** * Part I: definitions                                                 *)
(* ===================================================================== *)

(** ** package strings *)
Module Strings.

(** [strings.Split(s, sep)] for a one-byte separator: the pieces of [s]
    between the occurrences of [sep]; always at least one piece. *)
Fixpoint Split (s : string) (sep : ascii) : list string :=
  match s with
  | EmptyString => [EmptyString]
  | String a s' =>
      if Ascii.eqb a sep then EmptyString :: Split s' sep
      else match Split s' sep with
           | [] => [String a EmptyString]
           | piece :: rest => String a piece :: rest
           end
  end.

(** [strings.TrimLeft(s, cutset)] for a one-byte cutset. *)
Fixpoint TrimLeft (s : string) (cut : ascii) : string :=
  match s with
  | EmptyString => EmptyString
  | String a s' => if Ascii.eqb a cut then TrimLeft s' cut else s
  end.

(** [strings.TrimRight(s, cutset)] for a one-byte cutset. *)
Fixpoint TrimRight (s : string) (cut : ascii) : string :=
  match s with
  | EmptyString => EmptyString
  | String a s' =>
      match TrimRight s' cut with
      | EmptyString => if Ascii.eqb a cut then EmptyString else String a EmptyString
      | t => String a t
      end
  end.

(** [strings.Trim(s, cutset)]: both ends. *)
Definition Trim (s : string) (cut : ascii) : string :=
  TrimRight (TrimLeft s cut) cut.

(** [strings.Join(elems, sep)]: no element gives the empty string, one
    element gives itself, otherwise the first element followed by
    [sep + e] for every later element. *)
Definition Join (elems : list string) (sep : string) : string :=
  match elems with
  | [] => EmptyString
  | [e] => e
  | e :: rest => fold_left (fun b s => b +:+ sep +:+ s) rest e
  end.

(** No byte of [s] is [c]. *)
Fixpoint noByte (c : ascii) (s : string) : bool :=
  match s with
  | EmptyString => true
  | String a s' => negb (Ascii.eqb a c) && noByte c s'
  end.

(** [n] copies of the byte [c]. *)
Fixpoint pad (c : ascii) (n : nat) : string :=
  match n with
  | O => EmptyString
  | S n' => String c (pad c n')
  end.

Fixpoint endsWith (c : ascii) (s : string) : bool :=
  match s with
  | EmptyString => false
  | String a EmptyString => Ascii.eqb a c
  | String _ s' => endsWith c s'
  end.

(** [s] neither starts nor ends with the byte [c]. *)
Definition edgeFree (c : ascii) (s : string) : bool :=
  match s with
  | EmptyString => true
  | String a _ => negb (Ascii.eqb a c) && negb (endsWith c s)
  end.

End Strings.

(** ** package strconv *)
Module Strconv.

Definition is_digit (a : ascii) : bool :=
  ((48 <=? N_of_ascii a) && (N_of_ascii a <=? 57))%N.

(** The digit loop of [Atoi]/[ParseUint] in base 10: [None] at the first
    byte that is not a digit. *)
Fixpoint digits (s : string) (acc : Z) : option Z :=
  match s with
  | EmptyString => Some acc
  | String a s' =>
      if is_digit a
      then digits s' (acc * 10 + (Z.of_N (N_of_ascii a) - 48))
      else None
  end.

Definition minInt : Z := - 2 ^ 63.
Definition maxInt : Z := 2 ^ 63 - 1.

(** [strconv.Atoi]: an optional sign, then one or more decimal digits and
    nothing else; a value outside [int] is a range error.  [None] stands
    for a non-nil [err] (the validator never looks at the number then). *)
Definition Atoi (s : string) : option Z :=
  match s with
  | EmptyString => None
  | String a s' =>
      let neg := Ascii.eqb a "-" in
      let body := if neg || Ascii.eqb a "+" then s' else s in
      match body with
      | EmptyString => None
      | _ =>
          match digits body 0 with
          | None => None
          | Some n =>
              let n := if neg then - n else n in
              if (minInt <=? n) && (n <=? maxInt) then Some n else None
          end
      end
  end.

(** [strconv.Itoa] / the [%d] verb on an [int]. *)
Definition Itoa (z : Z) : string := NilZero.string_of_int (Z.to_int z).

End Strconv.

(** ** package fmt *)
Module Fmt.

(** An operand handed to a formatting verb. *)
Inductive arg :=
| AInt (z : Z)
| AString (s : string).

(** The [%d] verb: an integer prints in decimal; a string operand is the
    wrong type for the verb and prints as [%!d(string=...)]. *)
Definition verb_d (a : arg) : string :=
  match a with
  | AInt z => Strconv.Itoa z
  | AString s => "%!d(string=" +:+ s +:+ ")"
  end.

End Fmt.

(** ** package unicode/utf8 *)
Module Utf8.

(** A rune is a Unicode code point. *)
Definition rune := N.

Definition RuneError : rune := 65533%N.

(** The [first] table with its [acceptRanges]: for a leading byte of a
    multi-byte sequence, the length of the sequence and the range the
    second byte must lie in; [None] for the bytes that start no sequence
    ([0x80]-[0xC1], [0xF5]-[0xFF]). *)
Definition first (b : N) : option (nat * N * N) :=
  (if (194 <=? b) && (b <=? 223) then Some (2%nat, 128, 191)
   else if b =? 224 then Some (3%nat, 160, 191)
   else if b =? 237 then Some (3%nat, 128, 159)
   else if (225 <=? b) && (b <=? 239) then Some (3%nat, 128, 191)
   else if b =? 240 then Some (4%nat, 144, 191)
   else if (241 <=? b) && (b <=? 243) then Some (4%nat, 128, 191)
   else if b =? 244 then Some (4%nat, 128, 143)
   else None)%N.

(** A continuation byte, [locb <= b <= hicb]. *)
Definition cont (b : N) : bool := ((128 <=? b) && (b <=? 191))%N.

(** [utf8.DecodeRuneInString]: the first rune of the bytes and its width.
    A byte that starts no well-formed sequence decodes to [RuneError] of
    width 1; no byte at all gives [RuneError] of width 0. *)
Definition DecodeRune (s : list N) : rune * nat :=
  let bad := (RuneError, 1%nat) in
  match s with
  | [] => (RuneError, 0%nat)
  | b0 :: t1 =>
      if (b0 <? 128)%N then (b0, 1%nat)
      else
        match first b0 with
        | None => bad
        | Some (sz, lo, hi) =>
            if Nat.ltb (length s) sz then bad
            else
              match t1 with
              | [] => bad
              | b1 :: t2 =>
                  if negb ((lo <=? b1) && (b1 <=? hi))%N then bad
                  else if Nat.leb sz 2 then
                    (N.lor (N.shiftl (N.land b0 31) 6) (N.land b1 63), 2%nat)
                  else
                    match t2 with
                    | [] => bad
                    | b2 :: t3 =>
                        if negb (cont b2) then bad
                        else if Nat.leb sz 3 then
                          (N.lor (N.shiftl (N.land b0 15) 12)
                             (N.lor (N.shiftl (N.land b1 63) 6) (N.land b2 63)),
                           3%nat)
                        else
                          match t3 with
                          | [] => bad
                          | b3 :: _ =>
                              if negb (cont b3) then bad
                              else
                                (N.lor (N.shiftl (N.land b0 7) 18)
                                   (N.lor (N.shiftl (N.land b1 63) 12)
                                      (N.lor (N.shiftl (N.land b2 63) 6)
                                         (N.land b3 63))), 4%nat)
                          end
                    end
              end
        end
  end.

(** [DecodeRune] iterated over the bytes, as the matcher's [step] and the
    parser's [nextRune] do: each entry is a rune and its width.  Every
    round consumes at least one byte, so [fuel = length s] is enough. *)
Fixpoint DecodeFrom (fuel : nat) (s : list N) : list (rune * nat) :=
  match fuel, s with
  | S fuel', _ :: _ =>
      let rw := DecodeRune s in rw :: DecodeFrom fuel' (skipn (snd rw) s)
  | _, _ => []
  end.

Definition DecodeAll (s : list N) : list (rune * nat) :=
  DecodeFrom (length s) s.

Definition bytes (s : string) : list N :=
  map N_of_ascii (list_ascii_of_string s).

(** The runes of a Go string, in order. *)
Definition runes (s : string) : list rune := map fst (DecodeAll (bytes s)).

(** [utf8.ValidString]: no byte decoded to a width-1 [RuneError]. *)
Definition ValidString (s : string) : bool :=
  forallb (fun rw => negb ((fst rw =? RuneError)%N && Nat.eqb (snd rw) 1))
          (DecodeAll (bytes s)).

End Utf8.

(** ** package regexp (with regexp/syntax)

    [regexp.MatchString(pattern, s)] compiles [pattern] with the Perl
    flags of [regexp.Compile] and reports whether [s] contains any match.
    The model covers a fragment of the RE2 syntax: literal runes, [.],
    [^], [$], capturing groups, [|], the repetitions [*] [+] [?] (also
    non-greedy), counted repetitions [{n}] [{n,}] [{n,m}], bracket classes
    with ranges and negation, and backslash escapes of ASCII punctuation.
    Everything else (Perl and Unicode classes, flags and [(?...)] groups,
    [\b] and friends, counted repetitions nested in one another, patterns
    of more than 1000 bytes) is not interpreted: for such a pattern
    [MatchString] defers to an uninterpreted [Oracle], about which
    nothing is assumed. *)
Module Regexp.

Import Utf8.

(** Parsed expressions.  [Class neg rs] is a bracket class or a literal;
    [AnyCharNotNL] is [.]; [BeginText] and [EndText] are [^] and [$]
    under the one-line flag. *)
Inductive regex :=
| EmptyMatch
| Class (neg : bool) (ranges : list (rune * rune))
| AnyCharNotNL
| BeginText
| EndText
| Concat (r1 r2 : regex)
| Alternate (r1 r2 : regex)
| Star (r : regex).

Definition Literal (c : rune) : regex := Class false [(c, c)].
Definition Plus (r : regex) : regex := Concat r (Star r).
Definition Quest (r : regex) : regex := Alternate r EmptyMatch.

Fixpoint power (r : regex) (n : nat) (tail : regex) : regex :=
  match n with
  | O => tail
  | S n' => Concat r (power r n' tail)
  end.

(** [x{n,}] is [n] copies of [x] then [x*]; [x{n,m}] is [n] copies of [x]
    then [m-n] optional copies (as [simplify] expands them). *)
Definition Repeat (r : regex) (min : nat) (max : option nat) : regex :=
  match max with
  | None => power r min (Star r)
  | Some m => power r min (power (Quest r) (m - min) EmptyMatch)
  end.

Definition inRanges (c : rune) (rs : list (rune * rune)) : bool :=
  existsb (fun lh => (fst lh <=? c) && (c <=? snd lh))%N rs.

Definition classMatches (neg : bool) (rs : list (rune * rune)) (c : rune) : bool :=
  xorb neg (inRanges c rs).

(** *** Matching: what a match is

    [Matches pre r s post]: inside the text [pre ++ s ++ post], the
    expression [r] matches exactly the middle part [s]. *)
Inductive Matches : list rune -> regex -> list rune -> list rune -> Prop :=
| MEmpty pre post : Matches pre EmptyMatch [] post
| MClass pre post neg rs c :
    classMatches neg rs c = true -> Matches pre (Class neg rs) [c] post
| MAny pre post c : c <> 10%N -> Matches pre AnyCharNotNL [c] post
| MBegin post : Matches [] BeginText [] post
| MEnd pre : Matches pre EndText [] []
| MConcat pre post r1 r2 s1 s2 :
    Matches pre r1 s1 (s2 ++ post) ->
    Matches (pre ++ s1) r2 s2 post ->
    Matches pre (Concat r1 r2) (s1 ++ s2) post
| MAltL pre post r1 r2 s : Matches pre r1 s post -> Matches pre (Alternate r1 r2) s post
| MAltR pre post r1 r2 s : Matches pre r2 s post -> Matches pre (Alternate r1 r2) s post
| MStar0 pre post r : Matches pre (Star r) [] post
| MStarS pre post r s1 s2 :
    Matches pre r s1 (s2 ++ post) ->
    Matches (pre ++ s1) (Star r) s2 post ->
    Matches pre (Star r) (s1 ++ s2) post.

(** [r] matches the whole text. *)
Definition FullMatch (r : regex) (text : list rune) : Prop :=
  Matches [] r text [].

(** The text contains a match of [r]. *)
Definition Contains (r : regex) (text : list rune) : Prop :=
  exists pre s post, text = pre ++ s ++ post /\ Matches pre r s post.

(** *** Matching: the executable matcher

    [run r atStart s k]: try every way [r] can match a prefix of the rest
    [s] of the text ([atStart] tells whether [s] is the whole text) and
    hand what is left to [k].  A [Star] iteration must consume something,
    which bounds the loop by the length of the rest. *)
Fixpoint starLoop (step : bool -> list rune -> (bool -> list rune -> bool) -> bool)
         (k : bool -> list rune -> bool) (n : nat) (b : bool) (s : list rune)
         {struct n} : bool :=
  if k b s then true
  else
    match n with
    | O => false
    | S n' =>
        step b s
             (fun b' s' =>
                if Nat.ltb (length s') (length s) then starLoop step k n' b' s'
                else false)
    end.

Fixpoint run (r : regex) (atStart : bool) (s : list rune)
         (k : bool -> list rune -> bool) {struct r} : bool :=
  match r with
  | EmptyMatch => k atStart s
  | Class neg rs =>
      match s with
      | c :: s' => if classMatches neg rs c then k false s' else false
      | [] => false
      end
  | AnyCharNotNL =>
      match s with
      | c :: s' => if (c =? 10)%N then false else k false s'
      | [] => false
      end
  | BeginText => if atStart then k atStart s else false
  | EndText =>
      match s with
      | [] => k atStart s
      | _ :: _ => false
      end
  | Concat r1 r2 => run r1 atStart s (fun b s' => run r2 b s' k)
  | Alternate r1 r2 => if run r1 atStart s k then true else run r2 atStart s k
  | Star r1 => starLoop (run r1) k (length s) atStart s
  end.

Definition isNil (s : list rune) : bool :=
  match s with [] => true | _ :: _ => false end.

(** The unanchored search of [MatchString]: a match may start at any rune
    of the text, or at its end. *)
Fixpoint search (r : regex) (atStart : bool) (s : list rune) : bool :=
  if run r atStart s (fun _ _ => true) then true
  else
    match s with
    | [] => false
    | _ :: s' => search r false s'
    end.

(** *** Parsing *)

(** Outcome of a parsing step: a result, a [syntax.Error], or a construct
    outside the modelled fragment. *)
Inductive outcome (A : Type) :=
| Parsed (a : A)
| SyntaxError
| Unmodelled.
Arguments Parsed {A} a.
Arguments SyntaxError {A}.
Arguments Unmodelled {A}.

(** The parse stack holds expressions and the two pseudo-operators.  An
    expression carries a flag telling whether it contains a counted
    repetition. *)
Inductive item :=
| INode (r : regex) (counted : bool)
| ILeftParen
| IVerticalBar.

Definition ch (a : ascii) : rune := N_of_ascii a.

Definition isalnum (c : rune) : bool :=
  ((48 <=? c) && (c <=? 57) || (65 <=? c) && (c <=? 90) || (97 <=? c) && (c <=? 122))%N.

(** A byte of the pattern that is not well-formed UTF-8 is handed to the
    parser as this out-of-range value; [nextRune] rejects it. *)
Definition invalidRune : rune := 1114112%N.

Definition patternRunes (pattern : string) : list rune :=
  map (fun rw => if (fst rw =? RuneError)%N && Nat.eqb (snd rw) 1
                 then invalidRune else fst rw)
      (DecodeAll (bytes pattern)).

(** [nextRune] *)
Definition nextRune (c : rune) (t : list rune) : outcome (rune * list rune) :=
  if (c =? invalidRune)%N then SyntaxError else Parsed (c, t).

(** Pop the expressions above the topmost pseudo-operator; the result
    lists them in pattern order. *)
Fixpoint popNodes (stack : list item) (acc : list (regex * bool))
  : list (regex * bool) * list item :=
  match stack with
  | INode r c :: rest => popNodes rest ((r, c) :: acc)
  | _ => (acc, stack)
  end.

Fixpoint collapse (op : regex -> regex -> regex) (r : regex) (c : bool)
         (subs : list (regex * bool)) : regex * bool :=
  match subs with
  | [] => (r, c)
  | (r', c') :: rest =>
      let '(rr, cc) := collapse op r' c' rest in (op r rr, c || cc)
  end.

(** [parser.concat]: replace the expressions above the topmost
    pseudo-operator by their concatenation (the empty match if none). *)
Definition concat (stack : list item) : list item :=
  match popNodes stack [] with
  | ([], rest) => INode EmptyMatch false :: rest
  | ((r, c) :: subs, rest) =>
      let '(rr, cc) := collapse Concat r c subs in INode rr cc :: rest
  end.

(** [parser.alternate]: the same with alternation.  [concat] has run
    before, so there is always an expression to collapse. *)
Definition alternate (stack : list item) : list item :=
  match popNodes stack [] with
  | ([], rest) => INode (Class false []) false :: rest
  | ((r, c) :: subs, rest) =>
      let '(rr, cc) := collapse Alternate r c subs in INode rr cc :: rest
  end.

(** [parser.swapVerticalBar]: keep the vertical bar on top of the
    expression just finished. *)
Definition swapVerticalBar (stack : list item) : option (list item) :=
  match stack with
  | re1 :: IVerticalBar :: rest => Some (IVerticalBar :: re1 :: rest)
  | _ => None
  end.

(** [parser.parseVerticalBar] *)
Definition parseVerticalBar (stack : list item) : list item :=
  let stack := concat stack in
  match swapVerticalBar stack with
  | Some stack' => stack'
  | None => IVerticalBar :: stack
  end.

(** [concat], drop the vertical bar if there is one, [alternate]. *)
Definition closeAlternation (stack : list item) : list item :=
  let stack := concat stack in
  alternate (match swapVerticalBar stack with
             | Some (_ :: stack') => stack'
             | _ => stack
             end).

(** [parser.parseRightParen]: [None] is the unexpected [)]. *)
Definition parseRightParen (stack : list item) : option (list item) :=
  match closeAlternation stack with
  | INode r c :: ILeftParen :: rest => Some (INode r c :: rest)
  | _ => None
  end.

(** The end of [parse]: exactly one expression must remain, otherwise a
    closing parenthesis is missing. *)
Definition finish (stack : list item) : outcome regex :=
  match closeAlternation stack with
  | [INode r _] => Parsed r
  | _ => SyntaxError
  end.

(** [parser.parseEscape], on what follows the backslash: nothing there is
    the trailing backslash error; an escaped ASCII punctuation character
    is itself. *)
Definition parseEscape (t : list rune) : outcome (rune * list rune) :=
  match t with
  | [] => SyntaxError
  | c :: t' =>
      if (c =? invalidRune)%N then SyntaxError
      else if (c <? 128)%N && negb (isalnum c) && negb (c =? ch "_")%N
      then Parsed (c, t')
      else Unmodelled
  end.

(** [parser.parseClassChar]: the end of the pattern inside a class is the
    missing [\]] error. *)
Definition parseClassChar (t : list rune) : outcome (rune * list rune) :=
  match t with
  | [] => SyntaxError
  | c :: t' => if (c =? ch "\")%N then parseEscape t' else nextRune c t'
  end.

Definition startsWith (t : list rune) (c : ascii) : bool :=
  match t with
  | c0 :: _ => (c0 =? ch c)%N
  | [] => false
  end.

(** The loop of [parser.parseClass], after the opening bracket and the
    optional [^]: collects the ranges up to the closing bracket.  A [\]]
    in first position is a member of the class; [lo-hi] with [hi < lo] is
    the bad range error; a POSIX class ([[:alpha:]]) is not modelled. *)
Fixpoint classLoop (fuel : nat) (t : list rune) (first : bool)
         (acc : list (rune * rune)) : outcome (list (rune * rune) * list rune) :=
  match fuel with
  | O => Unmodelled
  | S fuel' =>
      if startsWith t "]" && negb first then Parsed (acc, tl t)
      else if startsWith t "[" && startsWith (tl t) ":" then Unmodelled
      else
        match parseClassChar t with
        | Parsed (lo, t1) =>
            if startsWith t1 "-" && negb (isNil (tl t1)) && negb (startsWith (tl t1) "]")
            then
              match parseClassChar (tl t1) with
              | Parsed (hi, t2) =>
                  if (hi <? lo)%N then SyntaxError
                  else classLoop fuel' t2 false (acc ++ [(lo, hi)])
              | SyntaxError => SyntaxError
              | Unmodelled => Unmodelled
              end
            else classLoop fuel' t1 false (acc ++ [(lo, lo)])
        | SyntaxError => SyntaxError
        | Unmodelled => Unmodelled
        end
  end.

(** [parser.parseClass], on what follows the opening bracket. *)
Definition parseClass (t : list rune) : outcome (regex * list rune) :=
  let neg := startsWith t "^" in
  let t1 := if neg then tl t else t in
  match classLoop (S (length t1)) t1 true [] with
  | Parsed (rs, rest) => Parsed (Class neg rs, rest)
  | SyntaxError => SyntaxError
  | Unmodelled => Unmodelled
  end.

Definition isDigit (c : rune) : bool := ((48 <=? c) && (c <=? 57))%N.

Fixpoint digitsValue (t : list rune) (acc : N) : N * list rune :=
  match t with
  | c :: t' => if isDigit c then digitsValue t' (acc * 10 + (c - 48))%N else (acc, t)
  | [] => (acc, t)
  end.

(** [parser.parseInt]: a run of digits without a leading zero. *)
Definition parseInt (t : list rune) : option (N * list rune) :=
  match t with
  | c0 :: t' =>
      if negb (isDigit c0) then None
      else if (c0 =? ch "0")%N && match t' with c1 :: _ => isDigit c1 | [] => false end
      then None
      else Some (digitsValue t 0%N)
  | [] => None
  end.

(** [parser.parseRepeat], on what follows the opening brace: [n}], [n,}]
    or [n,m}]. *)
Definition parseRepeat (t : list rune) : option (N * option N * list rune) :=
  match parseInt t with
  | None => None
  | Some (min, s) =>
      if startsWith s "," then
        if startsWith (tl s) "}" then Some (min, None, tl (tl s))
        else
          match parseInt (tl s) with
          | None => None
          | Some (max, s') =>
              if startsWith s' "}" then Some (min, Some max, tl s') else None
          end
      else if startsWith s "}" then Some (min, Some min, tl s)
      else None
  end.

(** The three repetition operators. *)
Definition repeatOp (c : rune) : option (regex -> regex) :=
  if (c =? ch "*")%N then Some Star
  else if (c =? ch "+")%N then Some Plus
  else if (c =? ch "?")%N then Some Quest
  else None.

(** [parser.repeat]: a [?] right after the operator makes it non-greedy,
    which does not change what matches; a repetition right after a
    repetition is an error, and so is one with nothing to repeat.
    [nested] tells whether the check of nested counted repetitions
    applies. *)
Definition repeat (op : regex -> regex) (isCounted nested : bool)
           (after : list rune) (stack : list item) (lastRepeat : bool)
  : outcome (list rune * list item) :=
  let after := if startsWith after "?" then tl after else after in
  if lastRepeat then SyntaxError
  else
    match stack with
    | INode r counted :: rest =>
        if nested && counted then Unmodelled
        else Parsed (after, INode (op r) (isCounted || counted) :: rest)
    | _ => SyntaxError
    end.

(** The main loop of [syntax.parse] under the flags of [regexp.Compile]. *)
Fixpoint parseLoop (fuel : nat) (t : list rune) (stack : list item)
         (lastRepeat : bool) : outcome regex :=
  match fuel with
  | O => Unmodelled
  | S fuel' =>
      match t with
      | [] => finish stack
      | c :: t' =>
          if (c =? ch "(")%N then
            if startsWith t' "?" then Unmodelled
            else parseLoop fuel' t' (ILeftParen :: stack) false
          else if (c =? ch "|")%N then
            parseLoop fuel' t' (parseVerticalBar stack) false
          else if (c =? ch ")")%N then
            match parseRightParen stack with
            | Some stack' => parseLoop fuel' t' stack' false
            | None => SyntaxError
            end
          else if (c =? ch "^")%N then
            parseLoop fuel' t' (INode BeginText false :: stack) false
          else if (c =? ch "$")%N then
            parseLoop fuel' t' (INode EndText false :: stack) false
          else if (c =? ch ".")%N then
            parseLoop fuel' t' (INode AnyCharNotNL false :: stack) false
          else if (c =? ch "[")%N then
            match parseClass t' with
            | Parsed (re, rest) => parseLoop fuel' rest (INode re false :: stack) false
            | SyntaxError => SyntaxError
            | Unmodelled => Unmodelled
            end
          else if (c =? ch "{")%N then
            match parseRepeat t' with
            | None => Unmodelled
            | Some (min, max, after) =>
                if (1000 <? min)%N
                   || match max with
                      | Some m => (1000 <? m)%N || (m <? min)%N
                      | None => false
                      end
                then SyntaxError
                else
                  let nested :=
                    (2 <=? min)%N
                    || match max with Some m => (2 <=? m)%N | None => false end in
                  match repeat (fun r => Repeat r (N.to_nat min) (option_map N.to_nat max))
                               true nested after stack lastRepeat with
                  | Parsed (after', stack') => parseLoop fuel' after' stack' true
                  | SyntaxError => SyntaxError
                  | Unmodelled => Unmodelled
                  end
            end
          else if (c =? ch "\")%N then
            match parseEscape t' with
            | Parsed (lit, rest) =>
                parseLoop fuel' rest (INode (Literal lit) false :: stack) false
            | SyntaxError => SyntaxError
            | Unmodelled => Unmodelled
            end
          else
            match repeatOp c with
            | Some op =>
                match repeat op false false t' stack lastRepeat with
                | Parsed (after', stack') => parseLoop fuel' after' stack' true
                | SyntaxError => SyntaxError
                | Unmodelled => Unmodelled
                end
            | None =>
                match nextRune c t' with
                | Parsed (lit, rest) =>
                    parseLoop fuel' rest (INode (Literal lit) false :: stack) false
                | SyntaxError => SyntaxError
                | Unmodelled => Unmodelled
                end
            end
      end
  end.

(** [syntax.Parse(pattern, syntax.Perl)] *)
Definition Parse (pattern : string) : outcome regex :=
  if Nat.ltb 1000 (String.length pattern) then Unmodelled
  else
    let t := patternRunes pattern in
    parseLoop (S (length t)) t [] false.

(** What [MatchString] returns: [Ok matched] with a nil error, or [Err],
    a non-nil error (with [matched = false]). *)
Inductive result :=
| Ok (matched : bool)
| Err.

(** The behaviour of [MatchString] on the patterns outside the modelled
    fragment; left uninterpreted. *)
Class Oracle := unmodelled : string -> string -> result.

(** [regexp.MatchString(pattern, s)] *)
Definition MatchString `{O : Oracle} (pattern s : string) : result :=
  match Parse pattern with
  | Parsed re => Ok (search re true (runes s))
  | SyntaxError => Err
  | Unmodelled => unmodelled pattern s
  end.

(** [r] starts with [^]. *)
Definition anchoredStart (r : regex) : bool :=
  match r with
  | Concat BeginText _ => true
  | _ => false
  end.

(** [r] ends with [$]. *)
Fixpoint anchoredEnd (r : regex) : bool :=
  match r with
  | EndText => true
  | Concat _ r2 => anchoredEnd r2
  | _ => false
  end.

(** What it means for [run] to be right on [r]: it succeeds exactly when
    [r] matches a prefix of the rest of the text and the continuation
    accepts what is left. *)
Definition runSpec (r : regex) : Prop :=
  forall pre s k,
    run r (isNil pre) s k = true <->
    exists s1 s2, s = s1 ++ s2 /\ Matches pre r s1 s2 /\ k (isNil (pre ++ s1)) s2 = true.

(** An oracle for the closed examples; the patterns there are all in the
    modelled fragment, so it is never consulted. *)
Definition silent : Oracle := fun _ _ => Err.

End Regexp.

(** ** package reflect

    What the validator sees of a Go value through [reflect]. *)
Module Kind.

(** [reflect.Kind] *)
Inductive t :=
| Invalid | Bool
| Int | Int8 | Int16 | Int32 | Int64
| Uint | Uint8 | Uint16 | Uint32 | Uint64 | Uintptr
| Float32 | Float64 | Complex64 | Complex128
| Array | Chan | Func | Interface | Map | Pointer | Slice
| String | Struct | UnsafePointer.

Definition eqb (a b : t) : bool :=
  match a, b with
  | Invalid, Invalid | Bool, Bool
  | Int, Int | Int8, Int8 | Int16, Int16 | Int32, Int32 | Int64, Int64
  | Uint, Uint | Uint8, Uint8 | Uint16, Uint16 | Uint32, Uint32
  | Uint64, Uint64 | Uintptr, Uintptr
  | Float32, Float32 | Float64, Float64
  | Complex64, Complex64 | Complex128, Complex128
  | Array, Array | Chan, Chan | Func, Func | Interface, Interface
  | Map, Map | Pointer, Pointer | Slice, Slice
  | String, String | Struct, Struct | UnsafePointer, UnsafePointer => true
  | _, _ => false
  end.

End Kind.

Module Reflect.

(** [reflect.StructTag]: the [key:"value"] pairs of a field's tag, in the
    order they are written. *)
Definition StructTag := list (string * string).

(** [StructTag.Get]: the value of the first pair under [key], the empty
    string if there is none. *)
Fixpoint Get (tag : StructTag) (key : string) : string :=
  match tag with
  | [] => EmptyString
  | (k, val) :: tag' => if String.eqb k key then val else Get tag' key
  end.

(** [reflect.StructField], as far as the validator reads it. *)
Record StructField := { Name : string; Tag : StructTag }.

(** The signed integer kinds. *)
Inductive IntKind := KInt | KInt8 | KInt16 | KInt32 | KInt64.

(** The kinds whose values the validator never opens. *)
Inductive OpaqueKind :=
| KBool
| KUint | KUint8 | KUint16 | KUint32 | KUint64 | KUintptr
| KFloat32 | KFloat64 | KComplex64 | KComplex128
| KArray | KChan | KFunc | KInterface | KMap | KSlice | KUnsafePointer.

(** A valid [reflect.Value].  [typ] is the text of [Type().String()].
    A string carries its bytes, a signed integer its value, a struct its
    fields in declaration order, a pointer its referent ([None] for a nil
    pointer); [zero] is the answer of [IsZero] where the validator cannot
    compute it from what it reads. *)
Inductive Value :=
| VString (typ : string) (s : string)
| VInt (k : IntKind) (typ : string) (i : Z)
| VStruct (typ : string) (zero : bool) (fields : list (StructField * Value))
| VPointer (typ : string) (elem : option Value)
| VOpaque (k : OpaqueKind) (typ : string) (zero : bool).

(** A [reflect.Value] that may be the zero Value ([None], of kind
    [Invalid]); also the content of an [interface{}], where [None] is the
    nil interface and [reflect.ValueOf] is the identity. *)
Definition rValue := option Value.

Definition intKind (k : IntKind) : Kind.t :=
  match k with
  | KInt => Kind.Int | KInt8 => Kind.Int8 | KInt16 => Kind.Int16
  | KInt32 => Kind.Int32 | KInt64 => Kind.Int64
  end.

Definition opaqueKind (k : OpaqueKind) : Kind.t :=
  match k with
  | KBool => Kind.Bool
  | KUint => Kind.Uint | KUint8 => Kind.Uint8 | KUint16 => Kind.Uint16
  | KUint32 => Kind.Uint32 | KUint64 => Kind.Uint64 | KUintptr => Kind.Uintptr
  | KFloat32 => Kind.Float32 | KFloat64 => Kind.Float64
  | KComplex64 => Kind.Complex64 | KComplex128 => Kind.Complex128
  | KArray => Kind.Array | KChan => Kind.Chan | KFunc => Kind.Func
  | KInterface => Kind.Interface | KMap => Kind.Map | KSlice => Kind.Slice
  | KUnsafePointer => Kind.UnsafePointer
  end.

(** [Value.Kind] *)
Definition ValueKind (v : Value) : Kind.t :=
  match v with
  | VString _ _ => Kind.String
  | VInt k _ _ => intKind k
  | VStruct _ _ _ => Kind.Struct
  | VPointer _ _ => Kind.Pointer
  | VOpaque k _ _ => opaqueKind k
  end.

Definition KindOf (v : rValue) : Kind.t :=
  match v with
  | Some v => ValueKind v
  | None => Kind.Invalid
  end.

(** [Value.Type().String()] *)
Definition TypeString (v : Value) : string :=
  match v with
  | VString typ _ | VInt _ typ _ | VStruct typ _ _ | VPointer typ _
  | VOpaque _ typ _ => typ
  end.

(** [Value.String]: the text of a string; for any other kind the
    placeholder [<T Value>]. *)
Definition String (v : Value) : string :=
  match v with
  | VString _ s => s
  | _ => "<" +:+ TypeString v +:+ " Value>"
  end.

(** [Value.Int], called on the signed integer kinds only. *)
Definition Int (v : Value) : Z :=
  match v with
  | VInt _ _ i => i
  | _ => 0
  end.

(** [Value.IsZero] *)
Definition IsZero (v : Value) : bool :=
  match v with
  | VString _ s => Nat.eqb (String.length s) 0
  | VInt _ _ i => i =? 0
  | VStruct _ zero _ => zero
  | VPointer _ elem => match elem with None => true | Some _ => false end
  | VOpaque _ _ zero => zero
  end.

(** [Value.Elem], called on a pointer only: the zero Value for a nil
    pointer. *)
Definition Elem (v : Value) : rValue :=
  match v with
  | VPointer _ elem => elem
  | _ => None
  end.

(** The fields of a struct: [Type().Field(i)] paired with [Field(i)], for
    [i] from 0 to [NumField()-1]. *)
Definition Fields (v : Value) : list (StructField * Value) :=
  match v with
  | VStruct _ _ fields => fields
  | _ => []
  end.

End Reflect.

(** ** package validator *)
Module validator.

Import Reflect.

Definition validate : string := "validate".
Definition required : string := "required".
Definition requiredMsg : string := "field is required".
Definition min : string := "min".
Definition max : string := "max".
Definition email : string := "email".
Definition regex : string := "regex".
Definition emailRegexPattern : string :=
  "^[a-zA-Z0-9._%+-]+@[a-zA-Z0-9.-]+\.[a-zA-Z]{2,}$".

(** ValidationError represents a single validation error *)
Record ValidationError := { Field : string; Message : string }.

(** ValidationErrors holds multiple validation errors *)
Definition ValidationErrors := list ValidationError.

(** The values of Go's [error] interface that occur: the errors made by
    [fmt.Errorf] (and any other error, known by its text) and the
    aggregate [ValidationErrors]. *)
Inductive error :=
| errorString (msg : string)
| errValidationErrors (ve : ValidationErrors).

(** One clause of the rendering, [fmt.Sprintf("%s : %s", Field, Message)]. *)
Definition clause (e : ValidationError) : string :=
  Field e +:+ " : " +:+ Message e.

(** [ValidationErrors.Error] *)
Definition Error (ve : ValidationErrors) : string :=
  let errMsgs := fold_left (fun errMsgs errVal => errMsgs ++ [clause errVal]) ve [] in
  Strings.Join errMsgs "; ".

(** [err.Error()] *)
Definition errorText (e : error) : string :=
  match e with
  | errorString msg => msg
  | errValidationErrors ve => Error ve
  end.

(** CustomValidatorFunc is a type for custom validation functions *)
Abbreviation CustomValidatorFunc := (Value -> option error).

(** Validator handles validation logic *)
Record Validator := {
  errors : ValidationErrors;
  customValidators : gmap string CustomValidatorFunc
}.

(** New creates a new Validator instance *)
Definition New : Validator :=
  {| errors := []; customValidators := ∅ |}.

(** RegisterCustomValidator registers a custom validation function *)
Definition RegisterCustomValidator (v : Validator) (tagVal : string)
           (fn : CustomValidatorFunc) : Validator :=
  {| errors := errors v; customValidators := <[tagVal := fn]> (customValidators v) |}.

(** [v.errors = append(v.errors, ValidationError{...})] *)
Definition appendError (v : Validator) (field message : string) : Validator :=
  {| errors := errors v ++ [ {| Field := field; Message := message |} ];
     customValidators := customValidators v |}.

(** [isMatchedRegex]: the error of [MatchString] is dropped, and with it
    [matched] is false. *)
Definition isMatchedRegex `{O : Regexp.Oracle} (value pattern : string) : bool :=
  match Regexp.MatchString pattern value with
  | Regexp.Ok matched => matched
  | Regexp.Err => false
  end.

(** [validateMin]: inside, [min] is the parsed bound. *)
Definition validateMin (currentFieldVal : Value) (minVlaue : string) : option error :=
  match Strconv.Atoi minVlaue with
  | None => Some (errorString "invalid min value")
  | Some min =>
      match ValueKind currentFieldVal with
      | Kind.String =>
          if Z.of_nat (String.length (String currentFieldVal)) <? min
          then Some (errorString ("length must be at least " +:+ Fmt.verb_d (Fmt.AInt min)))
          else None
      | Kind.Int | Kind.Int8 | Kind.Int16 | Kind.Int32 | Kind.Int64 =>
          if Int currentFieldVal <? min
          then Some (errorString ("value must be at least " +:+ Fmt.verb_d (Fmt.AInt min)))
          else None
      | _ => None
      end
  end.

(** [validateMax]: the parsed bound is [max]; the [min] handed to the
    [%d] verb is the package constant, the string ["min"]. *)
Definition validateMax (currentFieldVal : Value) (maxValue : string) : option error :=
  match Strconv.Atoi maxValue with
  | None => Some (errorString "invalid max value")
  | Some max =>
      match ValueKind currentFieldVal with
      | Kind.String =>
          if max <? Z.of_nat (String.length (String currentFieldVal))
          then Some (errorString ("length must be at least " +:+ Fmt.verb_d (Fmt.AString min)))
          else None
      | Kind.Int | Kind.Int8 | Kind.Int16 | Kind.Int32 | Kind.Int64 =>
          if max <? Int currentFieldVal
          then Some (errorString ("value must be at least " +:+ Fmt.verb_d (Fmt.AString min)))
          else None
      | _ => None
      end
  end.

(** The name of a rule: the text before the first [=], without the
    spaces around it. *)
Definition ruleName (rule : string) : string :=
  Strings.Trim (nth 0 (Strings.Split rule "=") EmptyString) " ".

(** The value of a rule: the text between the first and the second [=],
    without the spaces around it; empty if there is no [=]. *)
Definition ruleValue (rule : string) : string :=
  let parts := Strings.Split rule "=" in
  if Nat.ltb 1 (length parts)
  then Strings.Trim (nth 1 parts EmptyString) " "
  else EmptyString.

(** [applyValidationRule] *)
Definition applyValidationRule `{O : Regexp.Oracle} (rule : string)
           (currentFiledVal : Value) (fieldName : string) : option error :=
  let ruleName := ruleName rule in
  let ruleValue := ruleValue rule in
  if String.eqb ruleName required then
    if IsZero currentFiledVal then Some (errorString "field is required") else None
  else if String.eqb ruleName min then validateMin currentFiledVal ruleValue
  else if String.eqb ruleName max then validateMax currentFiledVal ruleValue
  else if String.eqb ruleName email then
    if negb (isMatchedRegex (String currentFiledVal) emailRegexPattern)
    then Some (errorString "invalid email format") else None
  else if String.eqb ruleName regex then
    if negb (isMatchedRegex (String currentFiledVal) ruleValue)
    then Some (errorString "value does not match required format") else None
  else None.

(** The inner loop of [validateFields]: every rule of one field, in
    order; a failure appends an error and the loop goes on. *)
Definition validateField `{O : Regexp.Oracle} (v : Validator)
           (currentField : StructField) (currentFieldVal : Value) : Validator :=
  let tagVal := Get (Tag currentField) validate in
  if String.eqb tagVal EmptyString then v
  else
    fold_left
      (fun v rule =>
         match applyValidationRule rule currentFieldVal (Name currentField) with
         | Some err => appendError v (Name currentField) (errorText err)
         | None => v
         end)
      (Strings.Split tagVal ",") v.

(** [validateFields]: every field, in declaration order. *)
Definition validateFields `{O : Regexp.Oracle} (v : Validator) (structVal : Value) : Validator :=
  fold_left (fun v f => validateField v (fst f) (snd f)) (Fields structVal) v.

(** One invocation of a custom validator: the token it is registered
    under, the field it is run for and the value it receives. *)
Record Call := { callToken : string; callField : string; callArg : Value }.

(** The validator together with the invocations of custom validators made
    so far. *)
Definition run := (Validator * list Call)%type.

(** The inner loop of [applyCustomValidators]: every rule of one field is
    looked up, whole, in the registry; a hit runs the function. *)
Definition applyCustomValidatorsField (st : run) (currentField : StructField)
           (currentFieldVal : Value) : run :=
  let tagVal := Get (Tag currentField) validate in
  if String.eqb tagVal EmptyString then st
  else
    fold_left
      (fun (st : run) rule =>
         let '(v, calls) := st in
         match customValidators v !! rule with
         | Some validator =>
             let calls := calls ++ [ {| callToken := rule;
                                        callField := Name currentField;
                                        callArg := currentFieldVal |} ] in
             match validator currentFieldVal with
             | Some err => (appendError v (Name currentField) (errorText err), calls)
             | None => (v, calls)
             end
         | None => st
         end)
      (Strings.Split tagVal ",") st.

(** [applyCustomValidators] *)
Definition applyCustomValidators (st : run) (structVal : Value) : run :=
  fold_left (fun st f => applyCustomValidatorsField st (fst f) (snd f))
            (Fields structVal) st.

(** [v.errors = ValidationErrors{}] *)
Definition resetErrors (v : Validator) : Validator :=
  {| errors := []; customValidators := customValidators v |}.

(** Validate performs basic validation on the provided struct.  The
    result is the returned error ([None] for nil), the validator after
    the call and the invocations of custom validators the call made. *)
Definition Validate `{O : Regexp.Oracle} (v : Validator) (s : rValue)
  : option error * Validator * list Call :=
  let v := resetErrors v in
  let rVal := s in
  if negb (Kind.eqb (KindOf rVal) Kind.Pointer) then
    (Some (errorString "validation requires a struct pointer input"), v, [])
  else
    let structVal := match rVal with Some p => Elem p | None => None end in
    match structVal with
    | Some structVal =>
        if negb (Kind.eqb (ValueKind structVal) Kind.Struct) then
          (Some (errorString "refOut must be a pointer struct !"), v, [])
        else
          let v := validateFields v structVal in
          let '(v, calls) := applyCustomValidators (v, []) structVal in
          if Nat.ltb 0 (length (errors v))
          then (Some (errValidationErrors (errors v)), v, calls)
          else (None, v, calls)
    | None => (Some (errorString "refOut must be a pointer struct !"), v, [])
    end.

(** *** Closed forms of the two passes

    What one field contributes to the aggregate, written as the spec
    words it: one entry per failing token, in token order. *)

(** The built-in failures of one field. *)
Definition builtinErrors `{O : Regexp.Oracle} (f : StructField * Value) : ValidationErrors :=
  let tagVal := Get (Tag (fst f)) validate in
  if String.eqb tagVal EmptyString then []
  else
    flat_map
      (fun rule =>
         match applyValidationRule rule (snd f) (Name (fst f)) with
         | Some err => [ {| Field := Name (fst f); Message := errorText err |} ]
         | None => []
         end)
      (Strings.Split tagVal ",").

(** The custom-validator failures of one field under the registry [reg]. *)
Definition customErrors (reg : gmap string CustomValidatorFunc)
           (f : StructField * Value) : ValidationErrors :=
  let tagVal := Get (Tag (fst f)) validate in
  if String.eqb tagVal EmptyString then []
  else
    flat_map
      (fun rule =>
         match reg !! rule with
         | Some validator =>
             match validator (snd f) with
             | Some err => [ {| Field := Name (fst f); Message := errorText err |} ]
             | None => []
             end
         | None => []
         end)
      (Strings.Split tagVal ",").

(** The custom validators run for one field under the registry [reg]. *)
Definition customCalls (reg : gmap string CustomValidatorFunc)
           (f : StructField * Value) : list Call :=
  let tagVal := Get (Tag (fst f)) validate in
  if String.eqb tagVal EmptyString then []
  else
    flat_map
      (fun rule =>
         match reg !! rule with
         | Some _ => [ {| callToken := rule; callField := Name (fst f);
                          callArg := snd f |} ]
         | None => []
         end)
      (Strings.Split tagVal ",").

(** [v] with the errors [es] appended to its accumulator. *)
Definition withErrors (v : Validator) (es : ValidationErrors) : Validator :=
  {| errors := errors v ++ es; customValidators := customValidators v |}.

(** The aggregate of a call on a pointer to a struct with these fields:
    all built-in failures, then all custom-validator failures. *)
Definition aggregate `{O : Regexp.Oracle} (v : Validator)
           (fields : list (StructField * Value)) : ValidationErrors :=
  flat_map builtinErrors fields ++ flat_map (customErrors (customValidators v)) fields.

(** The calls made for the token [token]. *)
Definition callsOf (token : string) (calls : list Call) : list Call :=
  List.filter (fun c => String.eqb (callToken c) token) calls.

(** The names of the built-in rules. *)
Definition builtin (name : string) : bool :=
  String.eqb name required || String.eqb name min || String.eqb name max
  || String.eqb name email || String.eqb name regex.

(** The fixed email pattern, parsed. *)
Definition emailExpr : Regexp.regex :=
  Eval vm_compute in
    match Regexp.Parse emailRegexPattern with
    | Regexp.Parsed re => re
    | _ => Regexp.EmptyMatch
    end.

(** *** The records of the examples *)

Definition field (name annotation : string) : StructField :=
  {| Name := name; Tag := [(validate, annotation)] |}.

(** [Person] with an empty [Name] and [Age] 15, with [Name] tagged [required] and [Age]
    tagged [min=18,max=100]. *)
Definition person : Value :=
  VStruct "validator.Person" false
    [ (field "Name" "required", VString "string" EmptyString);
      (field "Age" "min=18,max=100", VInt KInt "int" 15) ].

Definition tab : ascii := ascii_of_nat 9.

(** The records of the README: [User{}], [Person{Name: "A", Age: 15}] and
    a [Person] that satisfies every rule. *)
Definition userEmpty : Value :=
  VStruct "validator.User" true
    [ (field "Name" "required", VString "string" EmptyString);
      (field "Email" "required", VString "string" EmptyString) ].

Definition personShort : Value :=
  VStruct "validator.Person" false
    [ (field "Name" "required,min=2,max=50", VString "string" "A");
      (field "Age" "min=18,max=100", VInt KInt "int" 15) ].

Definition personValid : Value :=
  VStruct "validator.Person" false
    [ (field "Name" "required,min=2,max=50", VString "string" "John");
      (field "Age" "min=18,max=100", VInt KInt "int" 25) ].

End validator.

(** ** package validator, the earlier revision (src/unnamed/part_000)

    The same rules without the custom-validator pass.  The rule functions
    ([applyValidationRule], [validateMin], [validateMax],
    [isMatchedRegex]) are word for word those of [validator.go] and are
    shared with [Module validator]. *)
Module part_000.

Import Reflect.
Import validator (ValidationError, ValidationErrors, error, errorString,
                  errValidationErrors, errorText, applyValidationRule,
                  emailRegexPattern).

(** Validator handles validation logic *)
Record Validator := { errors : ValidationErrors }.

(** New creates a new Validator instance; [errors] starts as nil. *)
Definition New : Validator := {| errors := [] |}.

(** [isValidEmail]: its pattern is the email pattern, written out again. *)
Definition isValidEmail `{O : Regexp.Oracle} (email : string) : bool :=
  let pattern := "^[a-zA-Z0-9._%+-]+@[a-zA-Z0-9.-]+\.[a-zA-Z]{2,}$" in
  match Regexp.MatchString pattern email with
  | Regexp.Ok matched => matched
  | Regexp.Err => false
  end.

(** [matchRegex] *)
Definition matchRegex `{O : Regexp.Oracle} (value pattern : string) : bool :=
  match Regexp.MatchString pattern value with
  | Regexp.Ok matched => matched
  | Regexp.Err => false
  end.

(** [validateFields]: every field in declaration order, every rule of
    its annotation in order. *)
Definition validateFields `{O : Regexp.Oracle} (v : Validator) (structVal : Value) : Validator :=
  fold_left
    (fun v f =>
       let currentField := fst f in
       let currentFieldVal := snd f in
       let tagVal := Get (Tag currentField) validator.validate in
       if String.eqb tagVal EmptyString then v
       else
         fold_left
           (fun v rule =>
              match applyValidationRule rule currentFieldVal (Name currentField) with
              | Some err =>
                  {| errors := errors v ++ [ {| validator.Field := Name currentField;
                                                validator.Message := errorText err |} ] |}
              | None => v
              end)
           (Strings.Split tagVal ",") v)
    (Fields structVal) v.

(** Validate performs basic validation on the provided struct. *)
Definition Validate `{O : Regexp.Oracle} (v : Validator) (s : rValue)
  : option error * Validator :=
  let v := {| errors := [] |} in
  let rVal := s in
  if negb (Kind.eqb (KindOf rVal) Kind.Pointer) then
    (Some (errorString "validation requires a struct pointer input"), v)
  else
    let structVal := match rVal with Some p => Elem p | None => None end in
    match structVal with
    | Some structVal =>
        if negb (Kind.eqb (ValueKind structVal) Kind.Struct) then
          (Some (errorString "refOut must be a pointer struct !"), v)
        else
          let v := validateFields v structVal in
          if Nat.ltb 0 (length (errors v))
          then (Some (errValidationErrors (errors v)), v)
          else (None, v)
    | None => (Some (errorString "refOut must be a pointer struct !"), v)
    end.

End part_000.

(** ** Vocabulary for statements about annotations and email texts *)
Module Shape.

Import Reflect Utf8.

(** The rule tokens of a field: none when the annotation is absent or
    empty, otherwise the pieces between the commas. *)
Definition fieldTokens (f : StructField * Value) : list string :=
  let tagVal := Get (Tag (fst f)) validator.validate in
  if String.eqb tagVal EmptyString then [] else Strings.Split tagVal ",".

Definition isLetter (c : rune) : bool :=
  ((65 <=? c) && (c <=? 90) || (97 <=? c) && (c <=? 122))%N.

Definition isDecimal (c : rune) : bool := ((48 <=? c) && (c <=? 57))%N.

(** The characters of the part before the [@]: letters, digits and
    [. _ % + -]. *)
Definition localChar (c : rune) : bool :=
  isLetter c || isDecimal c
  || (c =? 46)%N || (c =? 95)%N || (c =? 37)%N || (c =? 43)%N || (c =? 45)%N.

(** The characters of the domain: letters, digits, [.] and [-]. *)
Definition domainChar (c : rune) : bool :=
  isLetter c || isDecimal c || (c =? 46)%N || (c =? 45)%N.

(** [local@domain.tld]: a non-empty local part, a non-empty domain, and
    a last label of at least two letters. *)
Definition emailShape (text : list rune) : Prop :=
  exists l d t,
    text = l ++ [64%N] ++ d ++ [46%N] ++ t
    /\ l <> [] /\ forallb localChar l = true
    /\ d <> [] /\ forallb domainChar d = true
    /\ (2 <= length t)%nat /\ forallb isLetter t = true.

End Shape.

(** ** package jsonserilizer (src/jsonSerilizer/json.go)

    [Serialize] reads the fields of a struct into a map keyed by field
    name; [Deserialize] writes the entries of such a map into the fields
    of the struct a pointer refers to.  Both go through [reflect], whose
    panics are part of what they do. *)
Module jsonserilizer.

(** What the package uses of Go's types.  [rtype] is a type descriptor
    (two descriptors are the same type exactly when they are equal),
    [IsInterface t] says that [t.Kind()] is [Interface], and
    [AssignableTo V T] is [V.AssignableTo(T)].  The one law is the first
    case of Go's assignability: a type is assignable to itself. *)
Class Types := {
  rtype : Type;
  IsInterface : rtype -> bool;
  AssignableTo : rtype -> rtype -> bool;
  AssignableTo_refl : forall t, AssignableTo t t = true
}.

(** [reflect.StructField], as far as the package reads it.  [PkgPath] is
    empty exactly for an exported field. *)
Record StructField `{T : Types} := {
  Name : string;
  PkgPath : string;
  Typ : rtype
}.

(** [StructField.IsExported] *)
Definition IsExported `{T : Types} (f : StructField) : bool :=
  String.eqb (PkgPath f) EmptyString.

(** A Go value with its dynamic type [t], as an [interface{}] holds it.
    A struct carries its fields in declaration order, each with its
    content: [None] is the nil interface, which only a field of
    interface type can hold.  A pointer carries its referent at the time
    of the call ([None] for a nil pointer); [id] tells the values of the
    other kinds apart. *)
Inductive Value `{T : Types} :=
| VString (t : rtype) (s : string)
| VInt (k : Reflect.IntKind) (t : rtype) (i : Z)
| VStruct (t : rtype) (fields : list (StructField * option Value))
| VPointer (t : rtype) (elem : option Value)
| VOpaque (k : Reflect.OpaqueKind) (t : rtype) (id : N).

(** The content of an [interface{}]: [None] is nil.  [reflect.ValueOf]
    is the identity on it, [None] being the zero Value. *)
Abbreviation any := (option Value).

(** [type Result map[string]interface{}]; [None] is the nil map. *)
Abbreviation Result := (option (gmap string any)).

(** [val, ok := r[key]]; reading a nil map finds nothing. *)
Definition index `{T : Types} (r : Result) (key : string) : option any :=
  match r with
  | Some m => m !! key
  | None => None
  end.

(** [reflect.TypeOf] on a non-nil interface. *)
Definition TypeOf `{T : Types} (v : Value) : rtype :=
  match v with
  | VString t _ | VInt _ t _ | VStruct t _ | VPointer t _ | VOpaque _ t _ => t
  end.

(** [Value.Kind] *)
Definition ValueKind `{T : Types} (v : Value) : Kind.t :=
  match v with
  | VString _ _ => Kind.String
  | VInt k _ _ => Reflect.intKind k
  | VStruct _ _ => Kind.Struct
  | VPointer _ _ => Kind.Pointer
  | VOpaque k _ _ => Reflect.opaqueKind k
  end.

Definition KindOf `{T : Types} (v : any) : Kind.t :=
  match v with
  | Some v => ValueKind v
  | None => Kind.Invalid
  end.

(** The same value seen at the type [t]: what [Value.Set] stores when it
    assigns to a variable of the non-interface type [t]. *)
Definition withType `{T : Types} (t : rtype) (v : Value) : Value :=
  match v with
  | VString _ s => VString t s
  | VInt k _ i => VInt k t i
  | VStruct _ fields => VStruct t fields
  | VPointer _ elem => VPointer t elem
  | VOpaque k _ id => VOpaque k t id
  end.

(** A call returns or panics. *)
Inductive outcome (A : Type) :=
| Returns (a : A)
| Panics.
Arguments Returns {A} a.
Arguments Panics {A}.

(** [fmt.Errorf(msg)] *)
Inductive error := Errorf (msg : string).

(** [Value.Interface] on the value of a struct field: it panics on a
    value obtained from an unexported field; for a field of interface
    type it returns what the interface holds. *)
Definition Interface `{T : Types} (field : StructField) (content : any) : outcome any :=
  if IsExported field then Returns content else Panics.

(** [Value.Set] on the addressable value of a struct field, returning
    the field's new content.  It panics on an unexported field, on the
    zero Value, and on a value whose type is not assignable to the
    field's type.  A field of interface type then holds the value as it
    is; any other field holds it at the field's own type. *)
Definition Set_ `{T : Types} (field : StructField) (x : any) : outcome any :=
  if negb (IsExported field) then Panics
  else
    match x with
    | None => Panics
    | Some x =>
        if AssignableTo (TypeOf x) (Typ field)
        then Returns (Some (if IsInterface (Typ field) then x
                            else withType (Typ field) x))
        else Panics
    end.

(** Serialize converts a struct into a Result map. *)
Definition Serialize `{T : Types} (s : any) : outcome Result :=
  let result : gmap string any := ∅ in
  match s with
  | None => Panics
  | Some rVal =>
      if negb (Kind.eqb (ValueKind rVal) Kind.Struct) then Returns None
      else
        let fields := match rVal with VStruct _ fields => fields | _ => [] end in
        let loop :=
          fold_left
            (fun (st : outcome (gmap string any)) (i : nat) =>
               match st with
               | Panics => Panics
               | Returns result =>
                   match fields !! i with
                   | None => Panics
                   | Some (field, filedValue) =>
                       match Interface field filedValue with
                       | Panics => Panics
                       | Returns x => Returns (<[Name field := x]> result)
                       end
                   end
               end)
            (seq 0 (length fields)) (Returns result) in
        match loop with
        | Returns result => Returns (Some result)
        | Panics => Panics
        end
  end.

(** One round of the loop of [Deserialize].  The state is the fields of
    the struct behind the pointer and whether a panic has ended the
    loop; what was stored before a panic stays stored. *)
Definition setField `{T : Types} (r : Result)
           (st : bool * list (StructField * any)) (i : nat)
  : bool * list (StructField * any) :=
  let '(panicked, fields) := st in
  if panicked then st
  else
    match fields !! i with
    | None => (true, fields)
    | Some (field, old) =>
        match index r (Name field) with
        | Some val =>
            match Set_ field val with
            | Returns new => (false, <[i := (field, new)]> fields)
            | Panics => (true, fields)
            end
        | None => st
        end
    end.

(** Deserialize populates a struct from a Result map.  The result is
    what the call does (the returned error, [None] for nil, or a panic)
    and [refOut] as the call leaves it. *)
Definition Deserialize `{T : Types} (r : Result) (refOut : any)
  : outcome (option error) * any :=
  let rVal := refOut in
  if negb (Kind.eqb (KindOf rVal) Kind.Pointer) then
    (Returns (Some (Errorf "refOut must be a pointer !")), refOut)
  else
    match rVal with
    | Some (VPointer pt (Some (VStruct st fields))) =>
        let '(panicked, fields') :=
          fold_left (setField r) (seq 0 (length fields)) (false, fields) in
        (if panicked then Panics else Returns None,
         Some (VPointer pt (Some (VStruct st fields'))))
    | _ => (Returns (Some (Errorf "refOut must be a pointer struct !")), refOut)
    end.

(** *** Vocabulary for the statements *)

(** The content field [name] ends up with when the map is written into
    it: the stored value if the map has the key, the old content
    otherwise. *)
Definition written `{T : Types} (r : Result) (f : StructField * any) : any :=
  match index r (Name (fst f)) with
  | Some (Some x) => Some (if IsInterface (Typ (fst f)) then x
                           else withType (Typ (fst f)) x)
  | _ => snd f
  end.

(** The map cannot be written into the field: it has the field's name
    as a key, and the field is unexported, or the entry is nil, or its
    type is not assignable to the field's. *)
Definition refused `{T : Types} (r : Result) (f : StructField * any) : bool :=
  match index r (Name (fst f)) with
  | None => false
  | Some val =>
      if negb (IsExported (fst f)) then true
      else match val with
           | None => true
           | Some x => negb (AssignableTo (TypeOf x) (Typ (fst f)))
           end
  end.

(** Closed form of the loop of [Deserialize]: the fields are written in
    declaration order up to the first one the map cannot be written
    into, where the loop ends in a panic. *)
Fixpoint writeAll `{T : Types} (r : Result) (fields : list (StructField * any))
  : bool * list (StructField * any) :=
  match fields with
  | [] => (false, [])
  | f :: rest =>
      if refused r f then (true, fields)
      else
        let '(panicked, rest') := writeAll r rest in
        (panicked, (fst f, written r f) :: rest')
  end.

(** Closed form of the loop of [Serialize] when no field stops it. *)
Definition readAll `{T : Types} (fields : list (StructField * any))
           (result : gmap string any) : gmap string any :=
  fold_left (fun result f => <[Name (fst f) := snd f]> result) fields result.

(** The content is one a field of this type can hold after a
    compilation: not nil and of the field's very type, or, in a field of
    interface type, nil or of a type assignable to it. *)
Definition holds `{T : Types} (f : StructField * any) : Prop :=
  match snd f with
  | None => IsInterface (Typ (fst f)) = true
  | Some x =>
      if IsInterface (Typ (fst f))
      then AssignableTo (TypeOf x) (Typ (fst f)) = true
      else TypeOf x = Typ (fst f)
  end.

(** The types of the example: named by their text, assignable when
    equal. *)
Definition named : Types :=
  {| rtype := string;
     IsInterface := fun t => String.eqb t "interface {}";
     AssignableTo := fun V T => String.eqb V T;
     AssignableTo_refl := String.eqb_refl |}.

(** The fields of [Person] holding a name and an age; [Example]
    serializes [Person{Name: "khaled", Age: 28}] and deserializes into a
    pointer to the zero [Person]. *)
Definition person (name : string) (age : Z)
  : list (@StructField named * option (@Value named)) :=
  [ ({| Name := "Name"; PkgPath := EmptyString; Typ := "string" : @rtype named |},
     Some (VString ("string" : @rtype named) name));
    ({| Name := "Age"; PkgPath := EmptyString; Typ := "int" : @rtype named |},
     Some (VInt Reflect.KInt ("int" : @rtype named) age)) ].

Definition p : @Value named :=
  VStruct ("jsonserilizer.Person" : @rtype named) (person "khaled" 28).

Definition pr : @Value named :=
  VPointer ("*jsonserilizer.Person" : @rtype named)
    (Some (VStruct ("jsonserilizer.Person" : @rtype named) (person EmptyString 0))).

End jsonserilizer.

(** ** [ExampleFour]: a validator with two custom functions

    The two functions [ExampleFour] registers, the validator it builds
    and its record type [Test]. *)
Module ExampleFour.

Import Reflect validator.

(** [strings.Contains(s, substr)] for a one-byte [substr]. *)
Definition Contains (s : string) (substr : ascii) : bool :=
  negb (Strings.noByte substr s).

(** [strings.HasPrefix(s, prefix)] *)
Fixpoint HasPrefix (s prefix : string) : bool :=
  match prefix with
  | EmptyString => true
  | String.String a prefix' =>
      match s with
      | EmptyString => false
      | String.String b s' => if Ascii.eqb a b then HasPrefix s' prefix' else false
      end
  end.

(** The function registered under [valid_username].  Where the text has
    no underscore it builds an error with [fmt.Errorf] and drops it: the
    statement has no [return]. *)
Definition valid_username : CustomValidatorFunc :=
  fun field =>
    let usernameValue := String field in
    let unused :=
      if negb (Contains usernameValue "_")
      then Some (errorString "username must contain underscore")
      else None in
    None.

(** The function registered under [valid_department]. *)
Definition valid_department : CustomValidatorFunc :=
  fun field =>
    let deptValue := String field in
    if negb (HasPrefix deptValue "DEP_")
    then Some (errorString "department must start with DEPT_")
    else None.

(** [v], after the two registrations. *)
Definition v : Validator :=
  RegisterCustomValidator
    (RegisterCustomValidator New "valid_username" valid_username)
    "valid_department" valid_department.

(** A value of the record type [Test]. *)
Definition Test (Username Department Email : string) : Value :=
  VStruct "validator.Test"
    (if String.eqb Username EmptyString
     then if String.eqb Department EmptyString
          then String.eqb Email EmptyString else false
     else false)
    [ (field "Username" "required,valid_username", VString "string" Username);
      (field "Department" "required,valid_department", VString "string" Department);
      (field "Email" "required,email", VString "string" Email) ].

(** The entry of a field left empty. *)
Definition missing (name text : string) : ValidationErrors :=
  match text with
  | EmptyString => [ {| Field := name; Message := "field is required" |} ]
  | String.String _ _ => []
  end.

End ExampleFour.

(* ===================================================================== *)
(** * Part II: theorems                                                   *)
(* ===================================================================== *)

#[local] Arguments String.append : simpl nomatch.

Section Utf8Facts.
Import Utf8.

(** A rune takes at least one byte and no more than there are. *)
Lemma DecodeRune_width (s : list N) :
  s <> [] -> (1 <= snd (DecodeRune s) <= length s)%nat.
Proof.
  destruct s as [|b0 t1]; [congruence|]. intros _. unfold DecodeRune.
  destruct (b0 <? 128)%N; [simpl; lia|].
  destruct (first b0) as [[[sz lo] hi]|]; [|simpl; lia].
  destruct (Nat.ltb (length (b0 :: t1)) sz); [simpl; lia|].
  destruct t1 as [|b1 t2]; [simpl; lia|].
  destruct (negb ((lo <=? b1)%N && (b1 <=? hi)%N)); [simpl; lia|].
  destruct (Nat.leb sz 2); [simpl; lia|].
  destruct t2 as [|b2 t3]; [simpl; lia|].
  destruct (negb (cont b2)); [simpl; lia|].
  destruct (Nat.leb sz 3); [simpl; lia|].
  destruct t3 as [|b3 t4]; [simpl; lia|].
  destruct (negb (cont b3)); simpl; lia.
Qed.

(** The decoding loop never runs out of fuel: any fuel of at least the
    number of bytes gives the same runes. *)
Lemma DecodeFrom_fuel (n m : nat) (s : list N) :
  (length s <= n)%nat -> (length s <= m)%nat -> DecodeFrom n s = DecodeFrom m s.
Proof.
  revert m s. induction n as [|n IH]; intros m s Hn Hm.
  - destruct s; [|simpl in Hn; lia]. now destruct m.
  - destruct s as [|b t]; [now destruct m|].
    destruct m as [|m]; [simpl in Hm; lia|].
    cbn [DecodeFrom]. f_equal.
    assert (Hw := DecodeRune_width (b :: t) ltac:(discriminate)).
    assert (Hlen : (length (skipn (snd (DecodeRune (b :: t))) (b :: t)) <= length t)%nat).
    { rewrite length_skipn. simpl length in *. lia. }
    simpl length in Hn, Hm. apply IH; lia.
Qed.

End Utf8Facts.

Section RegexpFacts.
Import Utf8 Regexp.

Lemma isNil_app_cons (pre : list rune) c : isNil (pre ++ [c]) = false.
Proof. destruct pre; reflexivity. Qed.

Lemma isNil_true (l : list rune) : isNil l = true <-> l = [].
Proof. destruct l; simpl; split; congruence. Qed.

(** A match of [Star r] is empty or starts with a non-empty match of [r]. *)
Lemma star_unfold pre r s post :
  Matches pre (Star r) s post ->
  s = [] \/
  exists a b, s = a ++ b /\ a <> [] /\
              Matches pre r a (b ++ post) /\ Matches (pre ++ a) (Star r) b post.
Proof.
  intros H. remember (Star r) as e eqn:He.
  induction H; try discriminate.
  - now left.
  - injection He as ->.
    destruct s1 as [|c s1].
    + rewrite ?app_nil_r in *. simpl. now apply IHMatches2.
    + right. exists (c :: s1), s2. repeat split; auto.
Qed.

Lemma starLoop_spec r :
  runSpec r ->
  forall k n pre s, (length s <= n)%nat ->
    starLoop (run r) k n (isNil pre) s = true <->
    exists s1 s2, s = s1 ++ s2 /\ Matches pre (Star r) s1 s2 /\ k (isNil (pre ++ s1)) s2 = true.
Proof.
  intros IH k n. unfold runSpec in IH. induction n as [|n IHn]; intros pre s Hlen.
  - destruct s; [|simpl in Hlen; lia]. simpl.
    destruct (k (isNil pre) []) eqn:Hk.
    + split; [|auto]. intros _. exists [], []. rewrite ?app_nil_r.
      repeat split; auto. constructor.
    + split; [discriminate|]. intros (s1 & s2 & Hs & _ & Hk').
      symmetry in Hs. apply app_eq_nil in Hs as [-> ->].
      rewrite ?app_nil_r in Hk'. congruence.
  - simpl. destruct (k (isNil pre) s) eqn:Hk.
    + split; [|auto]. intros _. exists [], s. rewrite ?app_nil_r.
      repeat split; auto. constructor.
    + rewrite IH. split.
      * intros (s1 & s2 & -> & Hm & Hk').
        destruct (Nat.ltb_spec (length s2) (length (s1 ++ s2))) as [Hlt|]; [|discriminate].
        apply IHn in Hk'; [|lia].
        destruct Hk' as (s3 & s4 & -> & Hm' & Hk'').
        exists (s1 ++ s3), s4. rewrite <- !app_assoc in *.
        repeat split; auto. now constructor.
      * intros (s1 & s2 & -> & Hm & Hk').
        apply star_unfold in Hm as [->|(a & b & -> & Ha & Hm1 & Hm2)].
        { rewrite ?app_nil_r in Hk'. simpl in Hk. congruence. }
        exists a, (b ++ s2). rewrite <- app_assoc. repeat split; auto.
        assert (Hl : (length (b ++ s2) < length (a ++ b ++ s2))%nat).
        { rewrite (length_app a). destruct a; [congruence|simpl; lia]. }
        apply Nat.ltb_lt in Hl as Hl'. rewrite Hl'.
        apply IHn. { rewrite <- app_assoc in Hlen. lia. }
        exists b, s2. rewrite <- app_assoc. auto.
Qed.

Lemma run_spec r : runSpec r.
Proof.
  induction r as [|neg rs| | | |r1 IH1 r2 IH2|r1 IH1 r2 IH2|r IH]; unfold runSpec in *; intros pre s k; simpl.
  - split.
    + intros Hk. exists [], s. rewrite ?app_nil_r. repeat split; auto. constructor.
    + intros (s1 & s2 & -> & Hm & Hk). inversion Hm; subst.
      now rewrite ?app_nil_r in Hk.
  - destruct s as [|c s].
    + split; [discriminate|]. intros (s1 & s2 & Hs & Hm & _).
      inversion Hm; subst. discriminate.
    + destruct (classMatches neg rs c) eqn:Hc.
      * split.
        -- intros Hk. exists [c], s. rewrite isNil_app_cons.
           repeat split; auto. now constructor.
        -- intros (s1 & s2 & Hs & Hm & Hk). inversion Hm; subst.
           injection Hs as -> ->. now rewrite isNil_app_cons in Hk.
      * split; [discriminate|]. intros (s1 & s2 & Hs & Hm & _).
        inversion Hm; subst. injection Hs as -> ->. congruence.
  - destruct s as [|c s].
    + split; [discriminate|]. intros (s1 & s2 & Hs & Hm & _).
      inversion Hm; subst. discriminate.
    + destruct (N.eqb_spec c 10) as [->|Hc].
      * split; [discriminate|]. intros (s1 & s2 & Hs & Hm & _).
        inversion Hm; subst. injection Hs as <- ->. congruence.
      * split.
        -- intros Hk. exists [c], s. rewrite isNil_app_cons.
           repeat split; auto. now constructor.
        -- intros (s1 & s2 & Hs & Hm & Hk). inversion Hm; subst.
           injection Hs as -> ->. now rewrite isNil_app_cons in Hk.
  - destruct (isNil pre) eqn:Hp.
    + apply isNil_true in Hp as ->. split.
      * intros Hk. exists [], s. repeat split; auto. constructor.
      * intros (s1 & s2 & -> & Hm & Hk). inversion Hm; subst. exact Hk.
    + split; [discriminate|]. intros (s1 & s2 & -> & Hm & Hk).
      inversion Hm; subst. discriminate.
  - destruct s as [|c s].
    + split.
      * intros Hk. exists [], []. rewrite ?app_nil_r. repeat split; auto. constructor.
      * intros (s1 & s2 & Hs & Hm & Hk). inversion Hm; subst.
        now rewrite ?app_nil_r in Hk.
    + split; [discriminate|]. intros (s1 & s2 & Hs & Hm & _).
      inversion Hm; subst. discriminate.
  - rewrite IH1. split.
    + intros (s1 & s2 & -> & Hm & Hk). apply IH2 in Hk.
      destruct Hk as (s3 & s4 & -> & Hm' & Hk).
      exists (s1 ++ s3), s4. rewrite <- !app_assoc in *.
      repeat split; auto. now constructor.
    + intros (s1 & s2 & -> & Hm & Hk). inversion Hm; subst.
      exists s0, (s3 ++ s2). rewrite <- app_assoc. repeat split; auto.
      apply IH2. exists s3, s2. rewrite <- app_assoc. auto.
  - destruct (run r1 (isNil pre) s k) eqn:H1.
    + split; [|auto]. intros _. apply IH1 in H1.
      destruct H1 as (s1 & s2 & -> & Hm & Hk). exists s1, s2.
      repeat split; auto. now apply MAltL.
    + rewrite IH2. split.
      * intros (s1 & s2 & -> & Hm & Hk). exists s1, s2.
        repeat split; auto. now apply MAltR.
      * intros (s1 & s2 & -> & Hm & Hk). inversion Hm; subst.
        -- assert (run r1 (isNil pre) (s1 ++ s2) k = true) by (apply IH1; eauto).
           congruence.
        -- eauto.
  - apply starLoop_spec; [exact IH|lia].
Qed.

Lemma search_spec r pre s :
  search r (isNil pre) s = true <->
  exists a m post, s = a ++ m ++ post /\ Matches (pre ++ a) r m post.
Proof.
  revert pre. induction s as [|c s IH]; intros pre; simpl.
  - destruct (run r (isNil pre) [] (fun _ _ => true)) eqn:Hr.
    + split; [|auto]. intros _. apply run_spec in Hr.
      destruct Hr as (s1 & s2 & Hs & Hm & _). exists [], s1, s2.
      rewrite ?app_nil_r. auto.
    + split; [discriminate|]. intros (a & m & post & Hs & Hm).
      symmetry in Hs. apply app_eq_nil in Hs as [-> Hs].
      apply app_eq_nil in Hs as [-> ->]. rewrite ?app_nil_r in Hm.
      assert (run r (isNil pre) [] (fun _ _ => true) = true).
      { apply run_spec. exists [], []. auto. }
      congruence.
  - destruct (run r (isNil pre) (c :: s) (fun _ _ => true)) eqn:Hr.
    + split; [|auto]. intros _. apply run_spec in Hr.
      destruct Hr as (s1 & s2 & Hs & Hm & _). exists [], s1, s2.
      rewrite ?app_nil_r. auto.
    + rewrite <- (isNil_app_cons pre c). rewrite IH. split.
      * intros (a & m & post & -> & Hm). exists (c :: a), m, post.
        rewrite <- app_assoc in Hm. auto.
      * intros (a & m & post & Hs & Hm). destruct a as [|c' a].
        -- rewrite ?app_nil_r in Hm. simpl in Hs.
           assert (run r (isNil pre) (c :: s) (fun _ _ => true) = true).
           { apply run_spec. exists m, post. auto. }
           congruence.
        -- injection Hs as <- ->. exists a, m, post.
           rewrite <- app_assoc. auto.
Qed.

(** The search finds a match exactly when the text contains one. *)
Lemma search_Contains r text : search r true text = true <-> Contains r text.
Proof. apply (search_spec r []). Qed.

End RegexpFacts.

Section StringsFacts.
Import Strings.

Lemma Split_nonempty s sep : Split s sep <> [].
Proof.
  destruct s as [|a s]; simpl; [discriminate|].
  destruct (Ascii.eqb a sep); [discriminate|].
  destruct (Split s sep); discriminate.
Qed.

Lemma Split_noByte s sep : noByte sep s = true -> Split s sep = [s].
Proof.
  induction s as [|a s IH]; simpl; [reflexivity|].
  intros H. apply andb_true_iff in H as [Ha Hs].
  apply negb_true_iff in Ha. rewrite Ha, (IH Hs). reflexivity.
Qed.

Lemma Split_app a b sep :
  noByte sep a = true -> Split (a +:+ String sep b) sep = a :: Split b sep.
Proof.
  induction a as [|c a IH]; simpl.
  - intros _. now rewrite Ascii.eqb_refl.
  - intros H. apply andb_true_iff in H as [Hc Ha].
    apply negb_true_iff in Hc. rewrite Hc, (IH Ha). reflexivity.
Qed.

Lemma TrimLeft_pad c n s : TrimLeft (pad c n +:+ s) c = TrimLeft s c.
Proof. induction n; simpl; [reflexivity|]. now rewrite Ascii.eqb_refl. Qed.

Lemma TrimLeft_pad_only c n : TrimLeft (pad c n) c = EmptyString.
Proof. induction n; simpl; [reflexivity|]. now rewrite Ascii.eqb_refl. Qed.

Lemma TrimRight_pad c n : TrimRight (pad c n) c = EmptyString.
Proof. induction n; simpl; [reflexivity|]. now rewrite IHn, Ascii.eqb_refl. Qed.

Lemma TrimRight_app_pad c n s : TrimRight (s +:+ pad c n) c = TrimRight s c.
Proof.
  induction s as [|a s IH]; simpl; [apply TrimRight_pad|]. now rewrite IH.
Qed.

Lemma TrimRight_id c s : endsWith c s = false -> TrimRight s c = s.
Proof.
  induction s as [|a s IH]; simpl; [reflexivity|].
  destruct s as [|b s].
  - simpl. intros ->. reflexivity.
  - intros H. rewrite (IH H). reflexivity.
Qed.

(** [Trim] removes the cutset bytes at both ends and nothing else. *)
Lemma Trim_pad c n m core :
  edgeFree c core = true -> Trim (pad c n +:+ core +:+ pad c m) c = core.
Proof.
  unfold Trim. intros H. rewrite TrimLeft_pad.
  destruct core as [|a core].
  - change (EmptyString +:+ pad c m) with (pad c m).
    now rewrite TrimLeft_pad_only.
  - simpl in H. apply andb_true_iff in H as [Ha He].
    apply negb_true_iff in Ha, He.
    change (String a core +:+ pad c m) with (String a (core +:+ pad c m)).
    cbn [TrimLeft]. rewrite Ha.
    change (String a (core +:+ pad c m)) with (String a core +:+ pad c m).
    rewrite TrimRight_app_pad. now apply TrimRight_id.
Qed.

End StringsFacts.

Section AnchorFacts.
Import Utf8 Regexp.

Lemma anchoredStart_pre r pre s post :
  anchoredStart r = true -> Matches pre r s post -> pre = [].
Proof.
  destruct r; try discriminate. destruct r1; try discriminate.
  intros _ H. inversion H; subst.
  match goal with Hm : Matches _ BeginText _ _ |- _ => inversion Hm end.
  reflexivity.
Qed.

Lemma anchoredEnd_post r pre s post :
  anchoredEnd r = true -> Matches pre r s post -> post = [].
Proof.
  revert pre s post. induction r; try discriminate; simpl; intros pre s post Ha H.
  - inversion H; subst. reflexivity.
  - inversion H; subst. eauto.
Qed.

(** For a pattern anchored at both ends, containing a match and being
    matched as a whole are the same. *)
Lemma Contains_anchored r text :
  anchoredStart r = true -> anchoredEnd r = true ->
  (Contains r text <-> FullMatch r text).
Proof.
  intros Hs He. split.
  - intros (pre & s & post & -> & H).
    pose proof (anchoredStart_pre _ _ _ _ Hs H) as ->.
    pose proof (anchoredEnd_post _ _ _ _ He H) as ->.
    now rewrite app_nil_r.
  - intros H. exists [], text, []. now rewrite app_nil_r.
Qed.

End AnchorFacts.

Section ValidatorFacts.
Import Reflect validator.
Context `{O : Regexp.Oracle}.

Lemma withErrors_nil v : withErrors v [] = v.
Proof. destruct v. unfold withErrors. simpl. now rewrite app_nil_r. Qed.

Lemma withErrors_app v es es' :
  withErrors (withErrors v es) es' = withErrors v (es ++ es').
Proof. unfold withErrors. simpl. now rewrite app_assoc. Qed.

Lemma fold_withErrors {A} (g : A -> ValidationErrors) (step : Validator -> A -> Validator) :
  (forall v a, step v a = withErrors v (g a)) ->
  forall l v, fold_left step l v = withErrors v (flat_map g l).
Proof.
  intros Hstep l. induction l as [|a l IH]; intros v; simpl.
  - now rewrite withErrors_nil.
  - now rewrite Hstep, IH, withErrors_app.
Qed.

Lemma validateField_spec v f fv :
  validateField v f fv = withErrors v (builtinErrors (f, fv)).
Proof.
  unfold validateField, builtinErrors. simpl.
  destruct (String.eqb (Get (Tag f) validate) EmptyString); [now rewrite withErrors_nil|].
  apply fold_withErrors. intros v' rule.
  destruct (applyValidationRule rule fv (Name f)); [reflexivity|].
  now rewrite withErrors_nil.
Qed.

Lemma validateFields_spec v structVal :
  validateFields v structVal = withErrors v (flat_map builtinErrors (Fields structVal)).
Proof.
  unfold validateFields. apply fold_withErrors.
  intros v' [f fv]. apply validateField_spec.
Qed.

Lemma fold_custom {A} (reg : gmap string CustomValidatorFunc)
      (g : A -> ValidationErrors) (h : A -> list Call) (step : run -> A -> run) :
  (forall v calls a, customValidators v = reg ->
     step (v, calls) a = (withErrors v (g a), calls ++ h a)) ->
  forall l v calls, customValidators v = reg ->
    fold_left step l (v, calls) = (withErrors v (flat_map g l), calls ++ flat_map h l).
Proof.
  intros Hstep l. induction l as [|a l IH]; intros v calls Hreg; simpl.
  - now rewrite withErrors_nil, app_nil_r.
  - rewrite Hstep, IH by (simpl; auto). now rewrite withErrors_app, app_assoc.
Qed.

Lemma applyCustomValidatorsField_spec v calls f fv :
  applyCustomValidatorsField (v, calls) f fv =
  (withErrors v (customErrors (customValidators v) (f, fv)),
   calls ++ customCalls (customValidators v) (f, fv)).
Proof.
  unfold applyCustomValidatorsField, customErrors, customCalls. simpl.
  destruct (String.eqb (Get (Tag f) validate) EmptyString).
  { now rewrite withErrors_nil, app_nil_r. }
  apply (fold_custom (customValidators v)); [|reflexivity].
  intros v' calls' rule <-.
  destruct (customValidators v' !! rule) as [fn|].
  - destruct (fn fv); [reflexivity|]. now rewrite withErrors_nil.
  - now rewrite withErrors_nil, app_nil_r.
Qed.

Lemma applyCustomValidators_spec v calls structVal :
  applyCustomValidators (v, calls) structVal =
  (withErrors v (flat_map (customErrors (customValidators v)) (Fields structVal)),
   calls ++ flat_map (customCalls (customValidators v)) (Fields structVal)).
Proof.
  unfold applyCustomValidators.
  apply (fold_custom (customValidators v)); [|reflexivity].
  intros v' calls' [f fv] <-. apply applyCustomValidatorsField_spec.
Qed.

Lemma customErrors_miss reg (f : StructField * Value) :
  Forall (fun rule => reg !! rule = None) (Strings.Split (Get (Tag (fst f)) validate) ",") ->
  customErrors reg f = [].
Proof.
  unfold customErrors. intros H.
  destruct (String.eqb (Get (Tag (fst f)) validate) EmptyString); [reflexivity|].
  induction H as [|rule l Hr _ IH]; cbn [flat_map]; [reflexivity|].
  now rewrite Hr, IH.
Qed.

Lemma customCalls_miss reg (f : StructField * Value) :
  Forall (fun rule => reg !! rule = None) (Strings.Split (Get (Tag (fst f)) validate) ",") ->
  customCalls reg f = [].
Proof.
  unfold customCalls. intros H.
  destruct (String.eqb (Get (Tag (fst f)) validate) EmptyString); [reflexivity|].
  induction H as [|rule l Hr _ IH]; cbn [flat_map]; [reflexivity|].
  now rewrite Hr, IH.
Qed.

Lemma Validate_struct v ptyp styp zero fields :
  Validate v (Some (VPointer ptyp (Some (VStruct styp zero fields)))) =
  (match aggregate v fields with
   | [] => None
   | errs => Some (errValidationErrors errs)
   end,
   {| errors := aggregate v fields; customValidators := customValidators v |},
   flat_map (customCalls (customValidators v)) fields).
Proof.
  unfold Validate. simpl.
  rewrite validateFields_spec, applyCustomValidators_spec.
  rewrite withErrors_app. unfold withErrors, resetErrors, aggregate. simpl.
  destruct (flat_map builtinErrors fields ++
            flat_map (customErrors (customValidators v)) fields); reflexivity.
Qed.

Lemma Validate_customValidators v s :
  customValidators (snd (fst (Validate v s))) = customValidators v.
Proof.
  destruct s as [p|]; [|reflexivity].
  destruct p as [? ?|k ? ?|? ? ?|ptyp elem|k ? ?]; try destruct k; try reflexivity.
  destruct elem as [structVal|]; [|reflexivity].
  destruct structVal as [? ?|k ? ?|? ? ?|? ?|k ? ?]; try destruct k; try reflexivity.
  now rewrite Validate_struct.
Qed.

End ValidatorFacts.

Section AggregateAndInput.
Import Reflect validator.

Lemma append_assoc3 (a b c : string) : (a +:+ b) +:+ c = a +:+ (b +:+ c).
Proof. induction a; simpl; [reflexivity|]. now f_equal. Qed.

Lemma Join_fold sep (l : list string) (a b : string) :
  fold_left (fun b s => b +:+ sep +:+ s) l (a +:+ b) =
  a +:+ fold_left (fun b s => b +:+ sep +:+ s) l b.
Proof.
  revert b. induction l as [|x l IH]; intros b; simpl; [reflexivity|].
  now rewrite append_assoc3, IH.
Qed.

Lemma Join_cons sep (e e' : string) (l : list string) :
  Strings.Join (e :: e' :: l) sep = e +:+ sep +:+ Strings.Join (e' :: l) sep.
Proof.
  unfold Strings.Join. simpl fold_left.
  rewrite !Join_fold. destruct l; reflexivity.
Qed.

Lemma errMsgs_map ve acc :
  fold_left (fun errMsgs errVal => errMsgs ++ [clause errVal]) ve acc =
  acc ++ map clause ve.
Proof.
  revert acc. induction ve as [|e ve IH]; intros acc; simpl.
  - now rewrite app_nil_r.
  - now rewrite IH, <- app_assoc.
Qed.

Lemma Error_map ve : Error ve = Strings.Join (map clause ve) "; ".
Proof. unfold Error. now rewrite errMsgs_map. Qed.

(** C1.  The record with an empty [Name] and [Age] 15, with [Name] tagged [required] and [Age]
    tagged [min=18,max=100]: [Validate] on a pointer to it returns the
    aggregate of the two failures, in this order, and its text is exactly
    ["Name : field is required; Age : value must be at least 18"].  In
    general the text of an aggregate is one [field : message] clause per
    error, in accumulation order, with ["; "] between the clauses. *)
Theorem C1_person_aggregate `{O : Regexp.Oracle} (v : Validator) (ptyp : string) :
  customValidators v !! "required" = None ->
  customValidators v !! "min=18" = None ->
  customValidators v !! "max=100" = None ->
  let ve := [ {| Field := "Name"; Message := "field is required" |};
              {| Field := "Age"; Message := "value must be at least 18" |} ] in
  fst (fst (Validate v (Some (VPointer ptyp (Some person))))) = Some (errValidationErrors ve)
  /\ errorText (errValidationErrors ve) = "Name : field is required; Age : value must be at least 18"
  /\ Error [] = EmptyString
  /\ (forall e, Error [e] = clause e)
  /\ (forall e e' rest, Error (e :: e' :: rest) = clause e +:+ "; " +:+ Error (e' :: rest)).
Proof.
  intros H1 H2 H3 ve. split; [|split; [reflexivity|split; [reflexivity|split]]].
  - unfold person. rewrite Validate_struct. unfold aggregate.
    cbn [flat_map].
    rewrite !customErrors_miss by (repeat constructor; assumption).
    reflexivity.
  - intros e. reflexivity.
  - intros e e' rest. rewrite !Error_map. simpl map. apply Join_cons.
Qed.

Lemma C1_person_aggregate_witness :
  fst (fst (@Validate Regexp.silent New (Some (VPointer "*validator.Person" (Some person)))))
  = Some (errValidationErrors
            [ {| Field := "Name"; Message := "field is required" |};
              {| Field := "Age"; Message := "value must be at least 18" |} ]).
Proof.
  apply (@C1_person_aggregate Regexp.silent New "*validator.Person"); reflexivity.
Defined.

(** C2.  An input that is not a pointer, or a pointer whose referent is not a
    struct, makes [Validate] return at once a plain error made by
    [fmt.Errorf]: it is not a [ValidationErrors], no field was processed
    (no custom validator ran) and the accumulator of the validator is
    left empty. *)
Theorem C2_malformed_input `{O : Regexp.Oracle} (v : Validator) (s : rValue) :
  (KindOf s <> Kind.Pointer \/
   exists p, s = Some p /\ ValueKind p = Kind.Pointer /\ KindOf (Elem p) <> Kind.Struct) ->
  (exists msg, Validate v s = (Some (errorString msg), resetErrors v, []))
  /\ (forall ve, fst (fst (Validate v s)) <> Some (errValidationErrors ve))
  /\ errors (snd (fst (Validate v s))) = []
  /\ snd (Validate v s) = [].
Proof.
  intros H.
  assert (Hex : exists msg, Validate v s = (Some (errorString msg), resetErrors v, [])).
  { destruct H as [H|(p & -> & Hp & He)].
    - destruct s as [p|]; [|eexists; reflexivity].
      destruct p as [? ?|k ? ?|? ? ?|? ?|k ? ?]; try destruct k;
        try (eexists; reflexivity).
      now elim H.
    - destruct p as [? ?|k ? ?|? ? ?|? elem|k ? ?]; try destruct k; try discriminate.
      destruct elem as [q|]; [|eexists; reflexivity].
      destruct q as [? ?|k ? ?|? ? ?|? ?|k ? ?]; try destruct k;
        try (eexists; reflexivity).
      now elim He. }
  destruct Hex as [msg Hmsg]. rewrite Hmsg. simpl.
  repeat split; eauto; intros; discriminate.
Qed.

Lemma C2_malformed_input_witness :
  exists msg,
    @Validate Regexp.silent New (Some (VString "string" "not a struct")) =
    (Some (errorString msg), resetErrors New, []).
Proof.
  apply (@C2_malformed_input Regexp.silent New (Some (VString "string" "not a struct"))).
  left. simpl. discriminate.
Defined.

End AggregateAndInput.

Section BoundRules.
Import Reflect validator.

(** A decimal number never starts with a percent sign. *)
Lemma Itoa_not_percent n s : Strconv.Itoa n <> String.String "%"%char s.
Proof.
  unfold Strconv.Itoa. destruct n as [|p|p]; simpl.
  - discriminate.
  - unfold NilZero.string_of_uint. destruct (Pos.to_uint p); discriminate.
  - discriminate.
Qed.

Lemma append_inj_l (a b c : string) : a +:+ b = a +:+ c -> b = c.
Proof. induction a; simpl; [auto|]. intros H. injection H. auto. Qed.

(** With [max=N] and [N] a base-10 integer that [Atoi] accepts, the max
    rule fails exactly when the length of a text exceeds [N], and for a
    signed integer when its value exceeds [N]; the kinds it does not
    measure pass.  The message it fails with is the wording of the min
    rule followed by the fixed text [%!d(string=min)], which is no
    number. *)
Lemma validateMax_above_bound (maxValue : string) (N : Z) (typ s : string)
      (k : IntKind) (i : Z) (ok : OpaqueKind) (zero : bool) :
  Strconv.Atoi maxValue = Some N ->
  validateMax (VString typ s) maxValue =
    (if N <? Z.of_nat (String.length s)
     then Some (errorString "length must be at least %!d(string=min)") else None)
  /\ validateMax (VInt k typ i) maxValue =
    (if N <? i
     then Some (errorString "value must be at least %!d(string=min)") else None)
  /\ validateMax (VOpaque ok typ zero) maxValue = None
  /\ (forall n : Z,
        "length must be at least %!d(string=min)" <> "length must be at least " +:+ Strconv.Itoa n
        /\ "value must be at least %!d(string=min)" <> "value must be at least " +:+ Strconv.Itoa n).
Proof.
  intros HN. unfold validateMax. rewrite HN. repeat split.
  - destruct k; reflexivity.
  - destruct ok; reflexivity.
  - intros H. apply (append_inj_l "length must be at least ") in H.
    symmetry in H. now apply Itoa_not_percent in H.
  - intros H. apply (append_inj_l "value must be at least ") in H.
    symmetry in H. now apply Itoa_not_percent in H.
Qed.

(** The min rule, for comparison: its message carries the bound. *)
Lemma validateMin_below_bound (minValue : string) (N : Z) (typ s : string)
      (k : IntKind) (i : Z) :
  Strconv.Atoi minValue = Some N ->
  validateMin (VString typ s) minValue =
    (if Z.of_nat (String.length s) <? N
     then Some (errorString ("length must be at least " +:+ Strconv.Itoa N)) else None)
  /\ validateMin (VInt k typ i) minValue =
    (if i <? N
     then Some (errorString ("value must be at least " +:+ Strconv.Itoa N)) else None).
Proof.
  intros HN. unfold validateMin. rewrite HN. split; [reflexivity|].
  destruct k; reflexivity.
Qed.

(** C3.  The max rule fails exactly when the bound is exceeded: with [max=5] the
    text ["abcdef"] fails and ["abcde"] passes, the integer 6 fails and 5
    passes.  But the message of the failure is not the ["...at least N"]
    text of the min rule: the [min] handed to [%d] in [validateMax] is
    the rule-name constant, a string, so the text ends in
    [%!d(string=min)] and names no bound at all, where the min rule on
    the same field prints its number. *)
Theorem C3_max_message_carries_no_bound :
  validateMax (VString "string" "abcdef") "5"
  = Some (errorString "length must be at least %!d(string=min)")
  /\ validateMax (VString "string" "abcde") "5" = None
  /\ validateMax (VInt KInt "int" 6) "5"
     = Some (errorString "value must be at least %!d(string=min)")
  /\ validateMax (VInt KInt "int" 5) "5" = None
  /\ validateMin (VString "string" "a") "2"
     = Some (errorString "length must be at least 2")
  /\ ~ (exists n : Z,
          "length must be at least %!d(string=min)"
          = "length must be at least " +:+ Strconv.Itoa n).
Proof.
  repeat split; try reflexivity. intros [n Hn].
  apply (append_inj_l "length must be at least ") in Hn.
  symmetry in Hn. now apply Itoa_not_percent in Hn.
Qed.

End BoundRules.

Section PatternRules.
Import Reflect validator.
Import Utf8 Regexp.

Lemma Parse_email : Parse emailRegexPattern = Parsed emailExpr.
Proof. vm_compute. reflexivity. Qed.

Lemma isMatchedRegex_email `{O : Oracle} value :
  isMatchedRegex value emailRegexPattern = search emailExpr true (runes value).
Proof. unfold isMatchedRegex, MatchString. now rewrite Parse_email. Qed.

Lemma isMatchedRegex_parsed `{O : Oracle} value pattern re :
  Parse pattern = Parsed re ->
  isMatchedRegex value pattern = search re true (runes value).
Proof. unfold isMatchedRegex, MatchString. now intros ->. Qed.

Lemma isMatchedRegex_error `{O : Oracle} value pattern :
  Parse pattern = SyntaxError -> isMatchedRegex value pattern = false.
Proof. unfold isMatchedRegex, MatchString. now intros ->. Qed.

Lemma applyValidationRule_email `{O : Oracle} rule v name :
  ruleName rule = email ->
  applyValidationRule rule v name =
  if isMatchedRegex (String v) emailRegexPattern then None
  else Some (errorString "invalid email format").
Proof.
  intros H. unfold applyValidationRule. rewrite H.
  change (String.eqb email required) with false.
  change (String.eqb email min) with false.
  change (String.eqb email max) with false.
  change (String.eqb email email) with true. cbv iota.
  now destruct (isMatchedRegex (String v) emailRegexPattern).
Qed.

Lemma applyValidationRule_regex `{O : Oracle} rule v name :
  ruleName rule = validator.regex ->
  applyValidationRule rule v name =
  if isMatchedRegex (String v) (ruleValue rule) then None
  else Some (errorString "value does not match required format").
Proof.
  intros H. unfold applyValidationRule. rewrite H.
  change (String.eqb validator.regex validator.required) with false.
  change (String.eqb validator.regex validator.min) with false.
  change (String.eqb validator.regex validator.max) with false.
  change (String.eqb validator.regex validator.email) with false.
  change (String.eqb validator.regex validator.regex) with true. cbv iota.
  now destruct (isMatchedRegex (String v) (ruleValue rule)).
Qed.

(** C4, as stated, fails: the token [regex=b] passes on the text ["abc"], which
    contains a match of the pattern [b] but does not match it as a
    whole. *)
Lemma C4_regex_accepts_a_substring_match :
  @applyValidationRule silent "regex=b" (VString "string" "abc") "Code" = None
  /\ Parse "b" = Parsed (Literal 98%N)
  /\ ~ FullMatch (Literal 98%N) (runes "abc").
Proof.
  split; [reflexivity|split; [reflexivity|]].
  intros H. inversion H.
Qed.

(** C4, amended.  The [email] rule passes exactly when the field's text, as a
    whole, matches the fixed email pattern, and fails with ["invalid email
    format"] otherwise.  The [regex] rule, for a parameter that parses to
    the expression [re], passes exactly when the field's text contains a
    match of [re] (anchoring is up to the pattern), and fails with ["value
    does not match required format"] otherwise. *)
Theorem C4_email_and_regex `{O : Oracle} (emailRule regexRule : string)
        (v : Value) (name : string) (re : regex) :
  ruleName emailRule = email ->
  ruleName regexRule = validator.regex ->
  Parse (ruleValue regexRule) = Parsed re ->
  Parse emailRegexPattern = Parsed emailExpr
  /\ (applyValidationRule emailRule v name = None <->
      FullMatch emailExpr (runes (String v)))
  /\ (applyValidationRule emailRule v name <> None ->
      applyValidationRule emailRule v name = Some (errorString "invalid email format"))
  /\ (applyValidationRule regexRule v name = None <->
      Contains re (runes (String v)))
  /\ (applyValidationRule regexRule v name <> None ->
      applyValidationRule regexRule v name =
      Some (errorString "value does not match required format")).
Proof.
  intros He Hr Hp. split; [apply Parse_email|].
  rewrite (applyValidationRule_email _ _ _ He), (applyValidationRule_regex _ _ _ Hr).
  rewrite isMatchedRegex_email, (isMatchedRegex_parsed _ _ _ Hp).
  rewrite <- (Contains_anchored emailExpr) by reflexivity.
  rewrite <- !search_Contains.
  destruct (search emailExpr true (runes (String v)));
    destruct (search re true (runes (String v)));
    repeat split; intros; congruence.
Qed.

Lemma C4_email_and_regex_witness :
  @applyValidationRule silent "email" (VString "string" "a@b.co") "Email" = None <->
  FullMatch emailExpr (runes "a@b.co").
Proof.
  apply (@C4_email_and_regex silent "email" "regex=^01[0125][0-9]{8}$"
           (VString "string" "a@b.co") "Email"
           (match Parse "^01[0125][0-9]{8}$" with Parsed re => re | _ => EmptyMatch end));
    reflexivity.
Defined.

(** C5.  An invalid pattern is not told apart from a pattern that does not match:
    [regex=[] (a class that is never closed) yields the same entry as
    [regex=x] on the same text, whereas an unparsable bound of [min] gets
    a message of its own.  The entry is a field-level one; the call goes
    on with the next field. *)
Lemma C5_invalid_pattern_reads_as_mismatch :
  Parse "[" = SyntaxError
  /\ @applyValidationRule silent "regex=[" (VString "string" "abc") "Phone"
     = Some (errorString "value does not match required format")
  /\ @applyValidationRule silent "regex=x" (VString "string" "abc") "Phone"
     = Some (errorString "value does not match required format")
  /\ @applyValidationRule silent "min=x" (VString "string" "abc") "Phone"
     = Some (errorString "invalid min value")
  /\ fst (fst (@Validate silent New
        (Some (VPointer "*validator.Contact"
           (Some (VStruct "validator.Contact" false
              [ (field "Phone" "regex=[", VString "string" "abc");
                (field "Name" "required", VString "string" EmptyString) ]))))))
     = Some (errValidationErrors
               [ {| Field := "Phone"; Message := "value does not match required format" |};
                 {| Field := "Name"; Message := "field is required" |} ]).
Proof. repeat split; vm_compute; reflexivity. Qed.

Lemma search_anchored_false r s : anchoredStart r = true -> search r false s = false.
Proof.
  destruct r; try discriminate. destruct r1; try discriminate. intros _.
  induction s; simpl; auto.
Qed.

Lemma runes_ascii a s : (N_of_ascii a <? 128)%N = true ->
  runes (String.String a s) = N_of_ascii a :: runes s.
Proof.
  intros H. unfold runes, DecodeAll, bytes. simpl. rewrite H. reflexivity.
Qed.

Lemma placeholder_is_no_email typ :
  search emailExpr true (runes ("<" +:+ typ +:+ " Value>")) = false.
Proof.
  change ("<" +:+ typ +:+ " Value>") with (String.String "<"%char (typ +:+ " Value>")).
  rewrite runes_ascii by reflexivity.
  generalize (runes (typ +:+ " Value>")). intros t.
  cbn [search]. rewrite search_anchored_false by reflexivity.
  vm_compute. reflexivity.
Qed.

(** C10.  A field that is not of string kind (an integer, in particular) always
    fails the [email] rule with ["invalid email format"], whatever its
    value: the rule is run on the placeholder [<T Value>], which starts
    with [<] and so never matches the email pattern.  The [regex] rule is
    run on the same placeholder.  The [min] rule, by contrast, lets the
    kinds it does not measure pass. *)
Theorem C10_email_on_integer `{O : Oracle} (rule : string) (k : IntKind)
        (typ : string) (i : Z) (name : string) :
  ruleName rule = email ->
  applyValidationRule rule (VInt k typ i) name = Some (errorString "invalid email format")
  /\ (forall v, ValueKind v <> Kind.String ->
        applyValidationRule rule v name = Some (errorString "invalid email format"))
  /\ applyValidationRule "regex=^[0-9]+$" (VInt KInt "int" i) name
     = Some (errorString "value does not match required format")
  /\ (forall ok zero, applyValidationRule "min=1" (VOpaque ok typ zero) name = None).
Proof.
  intros He.
  assert (Hall : forall v, ValueKind v <> Kind.String ->
            applyValidationRule rule v name = Some (errorString "invalid email format")).
  { intros v Hv. rewrite (applyValidationRule_email _ _ _ He), isMatchedRegex_email.
    destruct v as [? ?|? ? ?|? ? ?|? ?|? ? ?]; [now elim Hv|..];
      cbn [String TypeString]; now rewrite placeholder_is_no_email. }
  split; [|split; [|split]].
  - apply Hall. destruct k; discriminate.
  - exact Hall.
  - vm_compute. reflexivity.
  - intros ok zero. destruct ok; vm_compute; reflexivity.
Qed.

Lemma C10_email_on_integer_witness :
  @applyValidationRule silent "email" (VInt KInt "int" 42) "Age"
  = Some (errorString "invalid email format").
Proof.
  exact (proj1 (@C10_email_on_integer silent "email" KInt "int" 42 "Age" eq_refl)).
Defined.

End PatternRules.

Section TokensAndPasses.
Import Reflect validator.
Import Strings.

Lemma Split_two name param rest :
  noByte "=" name = true -> noByte "=" param = true ->
  Split (name +:+ "=" +:+ param +:+ "=" +:+ rest) "=" = name :: param :: Split rest "=".
Proof.
  intros Hn Hp.
  change (name +:+ "=" +:+ param +:+ "=" +:+ rest)
    with (name +:+ String.String "="%char (param +:+ String.String "="%char rest)).
  now rewrite !Split_app.
Qed.

Lemma Split_one name param :
  noByte "=" name = true -> noByte "=" param = true ->
  Split (name +:+ "=" +:+ param) "=" = [name; param].
Proof.
  intros Hn Hp.
  change (name +:+ "=" +:+ param) with (name +:+ String.String "="%char param).
  now rewrite Split_app, Split_noByte.
Qed.

Lemma validateField_skip `{O : Regexp.Oracle} v f fv :
  Get (Tag f) validate = EmptyString -> validateField v f fv = v.
Proof. unfold validateField. now intros ->. Qed.

Lemma applyCustomValidatorsField_skip st f fv :
  Get (Tag f) validate = EmptyString -> applyCustomValidatorsField st f fv = st.
Proof. unfold applyCustomValidatorsField. now intros ->. Qed.

(** C6, as stated, fails: a tab is whitespace and is not trimmed.  The token made
    of a tab and [required] keeps its tab, is then no rule the table
    knows, and passes on an empty text; with a space instead, the rule
    fires. *)
Lemma C6_tab_is_not_trimmed :
  ruleName (String.String tab "required") = String.String tab "required"
  /\ @applyValidationRule Regexp.silent (String.String tab "required")
       (VString "string" EmptyString) "Name" = None
  /\ @applyValidationRule Regexp.silent " required" (VString "string" EmptyString) "Name"
     = Some (errorString "field is required").
Proof. repeat split; vm_compute; reflexivity. Qed.

(** C6, amended.  The annotation is split on [,]; each token is split on [=], its
    name is the first piece and its parameter the second, so in
    [name=p1=p2] the parameter is [p1] and what follows the second [=] is
    dropped; without [=] the parameter is empty.  Space characters
    (U+0020, and only those) around name and parameter are trimmed.  A
    field whose annotation is absent or empty is left out of both passes:
    no error, no custom validator run, whatever its value. *)
Theorem C6_tokenization `{O : Regexp.Oracle}
        (token annotation name param rest core : string) (n m : nat)
        (v : Validator) (st : run) (f : StructField) (fv : Value) :
  noByte "," token = true ->
  noByte "=" name = true ->
  noByte "=" param = true ->
  edgeFree " " core = true ->
  Get (Tag f) validate = EmptyString ->
  Split (token +:+ "," +:+ annotation) "," = token :: Split annotation ","
  /\ Split token "," = [token]
  /\ ruleName (name +:+ "=" +:+ param +:+ "=" +:+ rest) = Trim name " "
  /\ ruleValue (name +:+ "=" +:+ param +:+ "=" +:+ rest) = Trim param " "
  /\ ruleName (name +:+ "=" +:+ param) = Trim name " "
  /\ ruleValue (name +:+ "=" +:+ param) = Trim param " "
  /\ ruleName name = Trim name " "
  /\ ruleValue name = EmptyString
  /\ Trim (pad " " n +:+ core +:+ pad " " m) " " = core
  /\ Get [] validate = EmptyString
  /\ validateField v f fv = v
  /\ applyCustomValidatorsField st f fv = st.
Proof.
  intros Ht Hn Hp Hc Hf.
  unfold ruleName, ruleValue.
  rewrite (Split_two name param rest Hn Hp), (Split_one name param Hn Hp),
    (Split_noByte name "=" Hn).
  repeat split.
  - change (token +:+ "," +:+ annotation) with (token +:+ String.String ","%char annotation).
    now apply Split_app.
  - now apply Split_noByte.
  - now apply Trim_pad.
  - now apply validateField_skip.
  - now apply applyCustomValidatorsField_skip.
Qed.

Lemma C6_tokenization_witness :
  ruleName "min=18=20" = "min" /\ ruleValue "min=18=20" = "18".
Proof.
  pose proof (@C6_tokenization Regexp.silent "required" "min=2" "min" "18" "20" "min" 1 2
                New (New, []) {| Name := "Nick"; Tag := [] |} (VString "string" "x")
                eq_refl eq_refl eq_refl eq_refl eq_refl) as H.
  split; [exact (proj1 (proj2 (proj2 H)))|exact (proj1 (proj2 (proj2 (proj2 H))))].
Defined.

Lemma callsOf_app token a b : callsOf token (a ++ b) = callsOf token a ++ callsOf token b.
Proof. apply List.filter_app. Qed.

Lemma callsOf_customCalls reg (f : StructField * Value) token fn :
  Get (Tag (fst f)) validate <> EmptyString ->
  reg !! token = Some fn ->
  length (callsOf token (customCalls reg f)) =
  count_occ string_dec (Split (Get (Tag (fst f)) validate) ",") token.
Proof.
  intros Hne Hreg. unfold customCalls.
  destruct (String.eqb_spec (Get (Tag (fst f)) validate) EmptyString); [contradiction|].
  induction (Split (Get (Tag (fst f)) validate) ",") as [|rule l IH];
    [reflexivity|].
  cbn [flat_map count_occ]. rewrite callsOf_app, length_app, IH.
  destruct (string_dec rule token) as [->|Hrt].
  - rewrite Hreg. unfold callsOf. cbn [List.filter callToken].
    now rewrite String.eqb_refl.
  - destruct (reg !! rule); [|reflexivity].
    unfold callsOf. cbn [List.filter callToken].
    apply String.eqb_neq in Hrt. now rewrite Hrt.
Qed.

Lemma customCalls_about reg (f : StructField * Value) :
  Forall (fun c => callField c = Name (fst f) /\ callArg c = snd f) (customCalls reg f).
Proof.
  unfold customCalls.
  destruct (String.eqb (Get (Tag (fst f)) validate) EmptyString); [constructor|].
  induction (Split (Get (Tag (fst f)) validate) ",") as [|rule l IH];
    [constructor|].
  cbn [flat_map]. apply Forall_app. split; [|exact IH].
  destruct (reg !! rule); repeat constructor.
Qed.

Lemma applyValidationRule_unknown `{O : Regexp.Oracle} rule v name :
  builtin (ruleName rule) = false -> applyValidationRule rule v name = None.
Proof.
  unfold builtin, applyValidationRule. intros H.
  repeat (apply orb_false_iff in H as [H ?]).
  now repeat match goal with Hx : String.eqb _ _ = false |- _ => rewrite Hx; clear Hx end.
Qed.

Lemma builtinErrors_unknown `{O : Regexp.Oracle} (f : StructField * Value) :
  Forall (fun rule => builtin (ruleName rule) = false)
         (Split (Get (Tag (fst f)) validate) ",") ->
  builtinErrors f = [].
Proof.
  unfold builtinErrors. intros H.
  destruct (String.eqb (Get (Tag (fst f)) validate) EmptyString); [reflexivity|].
  induction H as [|rule l Hr _ IH]; cbn [flat_map]; [reflexivity|].
  now rewrite (applyValidationRule_unknown _ _ _ Hr), IH.
Qed.

Lemma customCalls_tokens reg (f : StructField * Value) :
  customCalls reg f
  = flat_map
      (fun rule =>
         match reg !! rule with
         | Some _ => [ {| callToken := rule; callField := Name (fst f);
                          callArg := snd f |} ]
         | None => []
         end)
      (Shape.fieldTokens f).
Proof.
  unfold customCalls, Shape.fieldTokens.
  now destruct (String.eqb (Get (Tag (fst f)) validate) EmptyString).
Qed.

Lemma customErrors_tokens reg (f : StructField * Value) :
  customErrors reg f
  = flat_map
      (fun rule =>
         match reg !! rule with
         | Some validator =>
             match validator (snd f) with
             | Some err => [ {| Field := Name (fst f); Message := errorText err |} ]
             | None => []
             end
         | None => []
         end)
      (Shape.fieldTokens f).
Proof.
  unfold customErrors, Shape.fieldTokens.
  now destruct (String.eqb (Get (Tag (fst f)) validate) EmptyString).
Qed.

Lemma builtinErrors_tokens `{O : Regexp.Oracle} (f : StructField * Value) :
  builtinErrors f
  = flat_map
      (fun rule =>
         match applyValidationRule rule (snd f) (Name (fst f)) with
         | Some err => [ {| Field := Name (fst f); Message := errorText err |} ]
         | None => []
         end)
      (Shape.fieldTokens f).
Proof.
  unfold builtinErrors, Shape.fieldTokens.
  now destruct (String.eqb (Get (Tag (fst f)) validate) EmptyString).
Qed.

Lemma flat_map_pointwise {A B} (g h : A -> list B) (l : list A) :
  (forall a, g a = h a) -> flat_map g l = flat_map h l.
Proof. intros H. induction l as [|a l IH]; cbn [flat_map]; [reflexivity|]. now rewrite H, IH. Qed.

Lemma callsOf_field reg (f : StructField * Value) token :
  length (callsOf token (customCalls reg f))
  = match reg !! token with
    | Some _ => count_occ string_dec (Shape.fieldTokens f) token
    | None => 0%nat
    end.
Proof.
  rewrite customCalls_tokens.
  induction (Shape.fieldTokens f) as [|rule l IH].
  - now destruct (reg !! token).
  - cbn [flat_map count_occ]. rewrite callsOf_app, length_app, IH.
    destruct (string_dec rule token) as [->|Hrt].
    + destruct (reg !! token); [|reflexivity].
      unfold callsOf. cbn [List.filter callToken]. now rewrite String.eqb_refl.
    + assert (Hz : length (callsOf token
                       match reg !! rule with
                       | Some _ => [ {| callToken := rule; callField := Name (fst f);
                                        callArg := snd f |} ]
                       | None => []
                       end) = 0%nat).
      { destruct (reg !! rule); [|reflexivity].
        unfold callsOf. cbn [List.filter callToken].
        apply String.eqb_neq in Hrt. now rewrite Hrt. }
      rewrite Hz. reflexivity.
Qed.

Lemma callsOf_fields reg (fields : list (StructField * Value)) token :
  length (callsOf token (flat_map (customCalls reg) fields))
  = match reg !! token with
    | Some _ => list_sum (map (fun f => count_occ string_dec (Shape.fieldTokens f) token) fields)
    | None => 0%nat
    end.
Proof.
  induction fields as [|f fields IH].
  - now destruct (reg !! token).
  - cbn [flat_map map list_sum]. rewrite callsOf_app, length_app, IH, callsOf_field.
    now destruct (reg !! token).
Qed.

(** C7.  Pass 2, as [Validate] runs it on a pointer to a struct.  Write
    [tokens f] for the comma-separated tokens of the annotation of the
    field [f] (none if the annotation is empty or absent).

    - The custom validators a call of [Validate] runs are exactly
      these, in this order: for every field in declaration order and
      every token of it from left to right, if the registry holds a
      function under that very token text, one run of it for that field
      on that field's value; nothing for a token the registry does not
      hold.  The built-in rules play no part in it.
    - So a function registered under a token is run, in one call, as
      many times as the token occurs among the tokens of the fields, and
      a token the registry does not hold runs nothing.
    - The accumulated errors are the built-in failures, one per failing
      token, followed by the failures of the functions that were run: a
      token the registry does not hold adds no entry in pass 2, be its
      name a built-in one or not.
    - A rule name outside the built-in table does nothing in pass 1.
    - [applyCustomValidators] itself, from any accumulator and any call
      log, appends these failures and these runs and touches nothing
      else. *)
Theorem C7_custom_dispatch `{O : Regexp.Oracle} (v : Validator)
        (ptyp styp : string) (zero : bool) (fields : list (StructField * Value))
        (calls : list Call) :
  let reg := customValidators v in
  let input := Some (VPointer ptyp (Some (VStruct styp zero fields))) in
  let runs (f : StructField * Value) :=
    flat_map
      (fun rule =>
         match reg !! rule with
         | Some _ => [ {| callToken := rule; callField := Name (fst f);
                          callArg := snd f |} ]
         | None => []
         end)
      (Shape.fieldTokens f) in
  let customFailures (f : StructField * Value) :=
    flat_map
      (fun rule =>
         match reg !! rule with
         | Some validator =>
             match validator (snd f) with
             | Some err => [ {| Field := Name (fst f); Message := errorText err |} ]
             | None => []
             end
         | None => []
         end)
      (Shape.fieldTokens f) in
  let builtinFailures (f : StructField * Value) :=
    flat_map
      (fun rule =>
         match applyValidationRule rule (snd f) (Name (fst f)) with
         | Some err => [ {| Field := Name (fst f); Message := errorText err |} ]
         | None => []
         end)
      (Shape.fieldTokens f) in
  snd (Validate v input) = flat_map runs fields
  /\ (forall token,
        length (callsOf token (snd (Validate v input)))
        = match reg !! token with
          | Some _ =>
              list_sum (map (fun f => count_occ string_dec (Shape.fieldTokens f) token)
                            fields)
          | None => 0%nat
          end)
  /\ errors (snd (fst (Validate v input)))
     = flat_map builtinFailures fields ++ flat_map customFailures fields
  /\ (forall rule val name,
        builtin (ruleName rule) = false -> applyValidationRule rule val name = None)
  /\ applyCustomValidators (v, calls) (VStruct styp zero fields)
     = ({| errors := errors v ++ flat_map customFailures fields;
           customValidators := customValidators v |},
        calls ++ flat_map runs fields).
Proof.
  intros reg input runs customFailures builtinFailures.
  assert (Hruns : flat_map (customCalls reg) fields = flat_map runs fields).
  { apply flat_map_pointwise. intros f. apply customCalls_tokens. }
  assert (Hcustom : flat_map (customErrors reg) fields = flat_map customFailures fields).
  { apply flat_map_pointwise. intros f. apply customErrors_tokens. }
  assert (Hbuiltin : flat_map builtinErrors fields = flat_map builtinFailures fields).
  { apply flat_map_pointwise. intros f. apply builtinErrors_tokens. }
  subst input. rewrite Validate_struct. cbn [fst snd errors]. unfold aggregate.
  fold reg. split; [|split; [|split; [|split]]].
  - exact Hruns.
  - intros token. apply callsOf_fields.
  - now rewrite Hbuiltin, Hcustom.
  - intros rule val name. apply applyValidationRule_unknown.
  - rewrite applyCustomValidators_spec. cbn [Fields]. fold reg.
    rewrite Hruns, Hcustom. reflexivity.
Qed.

(** The first call of [ExampleFour], with the two functions registered:
    the [Username] and [Department] functions are run once each, on the
    text of their field, and nothing is run for [required] or [email]. *)
Lemma C7_custom_dispatch_witness :
  snd (@Validate Regexp.silent ExampleFour.v
         (Some (VPointer "*validator.Test"
                  (Some (ExampleFour.Test "khaledibrahim" "tech" "khaled@mail")))))
  = [ {| callToken := "valid_username"; callField := "Username";
         callArg := VString "string" "khaledibrahim" |};
      {| callToken := "valid_department"; callField := "Department";
         callArg := VString "string" "tech" |} ].
Proof.
  exact (proj1 (@C7_custom_dispatch Regexp.silent ExampleFour.v "*validator.Test"
                  "validator.Test" false
                  [ (field "Username" "required,valid_username",
                     VString "string" "khaledibrahim");
                    (field "Department" "required,valid_department",
                     VString "string" "tech");
                    (field "Email" "required,email", VString "string" "khaled@mail") ]
                  [])).
Defined.

(** The outputs the README shows. *)
Example README_required_fields :
  option_map errorText
    (fst (fst (@Validate Regexp.silent New (Some (VPointer "*validator.User" (Some userEmpty))))))
  = Some "Name : field is required; Email : field is required".
Proof. vm_compute. reflexivity. Qed.

Example README_error_output :
  option_map errorText
    (fst (fst (@Validate Regexp.silent New (Some (VPointer "*validator.Person" (Some personShort))))))
  = Some "Name : length must be at least 2; Age : value must be at least 18".
Proof. vm_compute. reflexivity. Qed.

Example README_valid_person :
  fst (fst (@Validate Regexp.silent New (Some (VPointer "*validator.Person" (Some personValid)))))
  = None.
Proof. vm_compute. reflexivity. Qed.

Example README_phone_pattern :
  @applyValidationRule Regexp.silent "regex=^01[0125][0-9]{8}$"
    (VString "string" "01140849506") "PhoneNumber" = None
  /\ @applyValidationRule Regexp.silent "regex=^01[0125][0-9]{8}$"
       (VString "string" "123456789") "PhoneNumber"
     = Some (errorString "value does not match required format")
  /\ @applyValidationRule Regexp.silent "email"
       (VString "string" "khaled.ibrahem.ahmed.ali@gmail.com") "Email" = None
  /\ @applyValidationRule Regexp.silent "email"
       (VString "string" "invalid-email") "Email"
     = Some (errorString "invalid email format").
Proof. repeat split; vm_compute; reflexivity. Qed.

Lemma Validate_registry `{O : Regexp.Oracle} v v' s :
  customValidators v = customValidators v' -> Validate v s = Validate v' s.
Proof.
  intros H.
  assert (Hr : resetErrors v = resetErrors v') by (unfold resetErrors; now rewrite H).
  unfold Validate. now rewrite Hr.
Qed.

(** C8.  On a pointer to a struct the aggregate is, in this order: the built-in
    failures of every field, fields in declaration order and tokens from
    left to right within a field, then the custom-validator failures in
    the same field and token order.  Nothing is cut short: every token of
    every annotated field contributes its failure, every registered token
    is run, and the returned error is the whole list (no error when it is
    empty). *)
Theorem C8_aggregate_order `{O : Regexp.Oracle} (v : Validator) (ptyp styp : string)
        (zero : bool) (fields : list (StructField * Value)) :
  let errs := flat_map builtinErrors fields
              ++ flat_map (customErrors (customValidators v)) fields in
  Validate v (Some (VPointer ptyp (Some (VStruct styp zero fields)))) =
    (match errs with
     | [] => None
     | _ :: _ => Some (errValidationErrors errs)
     end,
     {| errors := errs; customValidators := customValidators v |},
     flat_map (customCalls (customValidators v)) fields).
Proof.
  intros errs. rewrite Validate_struct. unfold aggregate. subst errs.
  destruct (flat_map builtinErrors fields ++
            flat_map (customErrors (customValidators v)) fields); reflexivity.
Qed.

(** C9.  The accumulator is scoped to the call: the outcome of [Validate] (the
    returned error, the validator left behind and the custom validators
    run) is the same whatever errors the validator held before, so it
    depends on the registry and the input only; and calling again with
    the same input returns the same outcome. *)
Theorem C9_call_scoped `{O : Regexp.Oracle} (v : Validator) (stale : ValidationErrors)
        (s : rValue) :
  Validate {| errors := stale; customValidators := customValidators v |} s = Validate v s
  /\ Validate (snd (fst (Validate v s))) s = Validate v s.
Proof.
  split.
  - now apply Validate_registry.
  - apply Validate_registry. apply Validate_customValidators.
Qed.

End TokensAndPasses.

(** ** The registry, the outcomes of a call and the rules, further *)

Section RegistryFacts.
Import Reflect validator Shape.

Lemma customErrors_ext reg reg' (f : StructField * Value) :
  Forall (fun rule => reg !! rule = reg' !! rule) (fieldTokens f) ->
  customErrors reg f = customErrors reg' f.
Proof.
  unfold customErrors, fieldTokens.
  destruct (String.eqb (Get (Tag (fst f)) validate) EmptyString); [reflexivity|].
  intros H. induction H as [|rule l Hr _ IH]; cbn [flat_map]; [reflexivity|].
  now rewrite Hr, IH.
Qed.

Lemma customCalls_ext reg reg' (f : StructField * Value) :
  Forall (fun rule => reg !! rule = reg' !! rule) (fieldTokens f) ->
  customCalls reg f = customCalls reg' f.
Proof.
  unfold customCalls, fieldTokens.
  destruct (String.eqb (Get (Tag (fst f)) validate) EmptyString); [reflexivity|].
  intros H. induction H as [|rule l Hr _ IH]; cbn [flat_map]; [reflexivity|].
  rewrite IH. destruct Hr. reflexivity.
Qed.

Lemma flat_map_ext_Forall {A B} (g h : A -> list B) (l : list A) :
  Forall (fun a => g a = h a) l -> flat_map g l = flat_map h l.
Proof. induction 1 as [|a l Ha _ IH]; cbn [flat_map]; congruence. Qed.

(** X1.  Registering again under a token replaces the function registered
    before: the validator behaves as if only the last registration had
    been made.  A registration is found under its token, leaves every
    other token as it was and does not touch the accumulated errors. *)
Theorem X1_register_last_wins `{O : Regexp.Oracle} (v : Validator) (token other : string)
        (f1 f2 : CustomValidatorFunc) (s : rValue) :
  Validate (RegisterCustomValidator (RegisterCustomValidator v token f1) token f2) s
  = Validate (RegisterCustomValidator v token f2) s
  /\ customValidators (RegisterCustomValidator v token f2) !! token = Some f2
  /\ (if String.eqb other token then True
      else customValidators (RegisterCustomValidator v token f2) !! other
           = customValidators v !! other)
  /\ errors (RegisterCustomValidator v token f2) = errors v.
Proof.
  split; [|split; [|split]].
  - apply Validate_registry. unfold RegisterCustomValidator. cbn [customValidators].
    apply insert_insert_eq.
  - unfold RegisterCustomValidator. cbn [customValidators]. apply lookup_insert_eq.
  - destruct (String.eqb_spec other token) as [|Hne]; [exact I|].
    unfold RegisterCustomValidator. cbn [customValidators].
    apply lookup_insert_ne. congruence.
  - reflexivity.
Qed.

(** X2.  Registering a function under a token that no annotated field of the
    record carries changes nothing for that record: the same error is
    returned, the same accumulator is left and the same custom validators
    are run. *)
Theorem X2_register_unused_token `{O : Regexp.Oracle} (v : Validator) (token : string) (fn : CustomValidatorFunc)
        (ptyp styp : string) (zero : bool) (fields : list (StructField * Value)) :
  Forall (fun f => ~ In token (fieldTokens f)) fields ->
  let input := Some (VPointer ptyp (Some (VStruct styp zero fields))) in
  fst (fst (Validate (RegisterCustomValidator v token fn) input)) = fst (fst (Validate v input))
  /\ errors (snd (fst (Validate (RegisterCustomValidator v token fn) input)))
     = errors (snd (fst (Validate v input)))
  /\ snd (Validate (RegisterCustomValidator v token fn) input) = snd (Validate v input).
Proof.
  intros Hfree input. subst input. rewrite !Validate_struct. cbn [fst snd errors].
  unfold aggregate, RegisterCustomValidator. cbn [customValidators].
  assert (He : flat_map (customErrors (<[token:=fn]> (customValidators v))) fields
               = flat_map (customErrors (customValidators v)) fields).
  { apply flat_map_ext_Forall. eapply Forall_impl; [exact Hfree|].
    intros f Hf. apply customErrors_ext. apply Forall_forall. intros rule Hin.
    apply lookup_insert_ne. intros ->. apply Hf. now apply list_elem_of_In. }
  assert (Hc : flat_map (customCalls (<[token:=fn]> (customValidators v))) fields
               = flat_map (customCalls (customValidators v)) fields).
  { apply flat_map_ext_Forall. eapply Forall_impl; [exact Hfree|].
    intros f Hf. apply customCalls_ext. apply Forall_forall. intros rule Hin.
    apply lookup_insert_ne. intros ->. apply Hf. now apply list_elem_of_In. }
  rewrite He, Hc. auto.
Qed.

Lemma X2_register_unused_token_witness :
  fst (fst (@Validate Regexp.silent
              (RegisterCustomValidator New "valid_department" (fun _ => Some (errorString "no")))
              (Some (VPointer "*validator.Person" (Some person)))))
  = fst (fst (@Validate Regexp.silent New (Some (VPointer "*validator.Person" (Some person))))).
Proof.
  refine (proj1 (@X2_register_unused_token Regexp.silent New "valid_department"
                   (fun _ => Some (errorString "no")) "*validator.Person"
                   "validator.Person" false
                   [ (field "Name" "required", VString "string" EmptyString);
                     (field "Age" "min=18,max=100", VInt KInt "int" 15) ] _)).
  repeat constructor; vm_compute; intuition discriminate.
Defined.

End RegistryFacts.

Section OutcomeFacts.
Import Reflect validator Shape.

Lemma customErrors_insert_silent reg token (fn : CustomValidatorFunc) (f : StructField * Value) :
  (forall x, fn x = None) -> reg !! token = None ->
  customErrors (<[token:=fn]> reg) f = customErrors reg f.
Proof.
  intros Hfn Hreg. unfold customErrors.
  destruct (String.eqb (Get (Tag (fst f)) validate) EmptyString); [reflexivity|].
  induction (Strings.Split (Get (Tag (fst f)) validate) ",") as [|rule l IH];
    cbn [flat_map]; [reflexivity|].
  rewrite IH. f_equal.
  destruct (String.eqb_spec rule token) as [->|Hne].
  - now rewrite lookup_insert_eq, Hfn, Hreg.
  - rewrite lookup_insert_ne by congruence. reflexivity.
Qed.

(** Every input is a pointer to a struct or is turned away with one of
    the two fixed messages, whatever the validator. *)
Lemma Validate_cases `{O : Regexp.Oracle} (s : rValue) :
  (exists ptyp styp zero fields, s = Some (VPointer ptyp (Some (VStruct styp zero fields))))
  \/ (exists msg, (msg = "validation requires a struct pointer input"
                   \/ msg = "refOut must be a pointer struct !")
                  /\ forall v, Validate v s = (Some (errorString msg), resetErrors v, [])).
Proof.
  destruct s as [p|]; [|right; eexists; split; [now left|reflexivity]].
  destruct p as [? ?|k ? ?|? ? ?|ptyp elem|k ? ?]; try destruct k;
    try (right; eexists; split; [now left|reflexivity]).
  destruct elem as [q|]; [|right; eexists; split; [now right|reflexivity]].
  destruct q as [? ?|k ? ?|? ? ?|? ?|k ? ?]; try destruct k;
    try (right; eexists; split; [now right|reflexivity]).
  left. eauto.
Qed.

(** X3.  A custom validator that returns nil for every value never changes what
    [Validate] returns: with it registered under a fresh token the
    returned error and the accumulator are those of the validator
    without it. *)
Theorem X3_nil_custom_validator `{O : Regexp.Oracle} (v : Validator) (token : string)
        (fn : CustomValidatorFunc) (s : rValue) :
  (forall x, fn x = None) ->
  customValidators v !! token = None ->
  fst (fst (Validate (RegisterCustomValidator v token fn) s)) = fst (fst (Validate v s))
  /\ errors (snd (fst (Validate (RegisterCustomValidator v token fn) s)))
     = errors (snd (fst (Validate v s))).
Proof.
  intros Hfn Hreg.
  destruct (Validate_cases s) as [(ptyp & styp & zero & fields & ->)|(msg & _ & Hm)].
  - rewrite !Validate_struct. cbn [fst snd errors].
    unfold aggregate, RegisterCustomValidator. cbn [customValidators].
    assert (He : flat_map (customErrors (<[token:=fn]> (customValidators v))) fields
                 = flat_map (customErrors (customValidators v)) fields).
    { apply flat_map_ext_Forall, Forall_forall. intros f _.
      now apply customErrors_insert_silent. }
    rewrite He. auto.
  - rewrite !Hm. auto.
Qed.

Lemma X3_nil_custom_validator_witness :
  fst (fst (@Validate Regexp.silent
              (RegisterCustomValidator New "valid_username" (fun _ => None))
              (Some (VPointer "*validator.Person" (Some person)))))
  = fst (fst (@Validate Regexp.silent New (Some (VPointer "*validator.Person" (Some person))))).
Proof.
  exact (proj1 (@X3_nil_custom_validator Regexp.silent New "valid_username" (fun _ => None)
                  (Some (VPointer "*validator.Person" (Some person)))
                  (fun _ => eq_refl) eq_refl)).
Defined.

(** X4.  What [Validate] can return: no error, and then the accumulator is
    empty; one of the two fixed messages for a malformed input, and then
    nothing was accumulated and no custom validator ran; or the
    aggregate, which is then never empty and is the very accumulator the
    call leaves in the validator. *)
Theorem X4_returned_error `{O : Regexp.Oracle} (v : Validator) (s : rValue) :
  match fst (fst (Validate v s)) with
  | None => errors (snd (fst (Validate v s))) = []
  | Some (errorString msg) =>
      (msg = "validation requires a struct pointer input"
       \/ msg = "refOut must be a pointer struct !")
      /\ errors (snd (fst (Validate v s))) = [] /\ snd (Validate v s) = []
  | Some (errValidationErrors ve) =>
      ve <> [] /\ ve = errors (snd (fst (Validate v s)))
  end.
Proof.
  destruct (Validate_cases s) as [(ptyp & styp & zero & fields & ->)|(msg & Hmsg & Hm)].
  - rewrite Validate_struct. cbn [fst snd errors].
    destruct (aggregate v fields); [reflexivity|]. split; [discriminate|reflexivity].
  - rewrite Hm. cbn [fst snd errors resetErrors]. auto.
Qed.

Lemma builtinErrors_about `{O : Regexp.Oracle} (f : StructField * Value) :
  Forall (fun e => Field e = Name (fst f)) (builtinErrors f)
  /\ (length (builtinErrors f) <= length (fieldTokens f))%nat.
Proof.
  unfold builtinErrors, fieldTokens.
  destruct (String.eqb (Get (Tag (fst f)) validate) EmptyString);
    [split; [constructor|reflexivity]|].
  induction (Strings.Split (Get (Tag (fst f)) validate) ",") as [|rule l [IH1 IH2]];
    cbn [flat_map]; [split; [constructor|reflexivity]|].
  destruct (applyValidationRule rule (snd f) (Name (fst f))); cbn [app length].
  - split; [constructor; auto|lia].
  - split; [auto|lia].
Qed.

Lemma customErrors_about reg (f : StructField * Value) :
  Forall (fun e => Field e = Name (fst f)) (customErrors reg f)
  /\ (length (customErrors reg f) <= length (fieldTokens f))%nat.
Proof.
  unfold customErrors, fieldTokens.
  destruct (String.eqb (Get (Tag (fst f)) validate) EmptyString);
    [split; [constructor|reflexivity]|].
  induction (Strings.Split (Get (Tag (fst f)) validate) ",") as [|rule l [IH1 IH2]];
    cbn [flat_map]; [split; [constructor|reflexivity]|].
  destruct (reg !! rule) as [fn|]; [destruct (fn (snd f))|]; cbn [app length].
  - split; [constructor; auto|lia].
  - split; [auto|lia].
  - split; [auto|lia].
Qed.

Lemma Forall_with_tokens {A B} (P : B -> Prop) (errs : list B) (tokens : list A) :
  Forall P errs -> (length errs <= length tokens)%nat ->
  Forall (fun e => P e /\ tokens <> []) errs.
Proof.
  intros HP Hl. apply Forall_forall. intros e Hin. split.
  - exact (proj1 (Forall_forall _ _) HP e Hin).
  - intros ->. destruct errs; [inversion Hin|simpl in Hl; lia].
Qed.

Lemma flat_map_about {A B} (g : A -> list B) (P : A -> B -> Prop) (l : list A) :
  (forall a, Forall (P a) (g a)) ->
  Forall (fun b => exists a, In a l /\ P a b) (flat_map g l).
Proof.
  intros Hg. induction l as [|a l IH]; cbn [flat_map]; [constructor|].
  apply Forall_app. split.
  - eapply Forall_impl; [apply Hg|]. intros b Hb. exists a. split; [now left|exact Hb].
  - eapply Forall_impl; [exact IH|]. intros b (a' & Hin & Hb). exists a'.
    split; [now right|exact Hb].
Qed.

Lemma flat_map_length_le {A B} (g : A -> list B) (h : A -> nat) (l : list A) :
  (forall a, (length (g a) <= h a)%nat) ->
  (length (flat_map g l) <= list_sum (map h l))%nat.
Proof.
  intros Hg. induction l as [|a l IH]; simpl; [reflexivity|].
  rewrite length_app. specialize (Hg a). lia.
Qed.

(** X5.  Every entry of the aggregate names a field of the record, and one that
    carries rule tokens; a token gives at most one built-in and one
    custom failure, so the aggregate has at most twice as many entries as
    the record has tokens.  A record without annotations never fails. *)
Theorem X5_entries_name_annotated_fields `{O : Regexp.Oracle} (v : Validator)
        (ptyp styp : string) (zero : bool) (fields : list (StructField * Value)) :
  let errs := errors (snd (fst (Validate v (Some (VPointer ptyp (Some (VStruct styp zero fields))))))) in
  Forall (fun e => exists f, In f fields /\ Field e = Name (fst f) /\ fieldTokens f <> []) errs
  /\ (length errs <= 2 * list_sum (map (fun f => length (fieldTokens f)) fields))%nat.
Proof.
  intros errs. subst errs. rewrite Validate_struct. cbn [fst snd errors].
  unfold aggregate. split.
  - apply Forall_app. split.
    + apply (flat_map_about builtinErrors
               (fun f e => Field e = Name (fst f) /\ fieldTokens f <> [])).
      intros f. destruct (builtinErrors_about f) as [Hf Hl].
      now apply Forall_with_tokens.
    + apply (flat_map_about (customErrors (customValidators v))
               (fun f e => Field e = Name (fst f) /\ fieldTokens f <> [])).
      intros f. destruct (customErrors_about (customValidators v) f) as [Hf Hl].
      now apply Forall_with_tokens.
  - rewrite length_app.
    pose proof (flat_map_length_le builtinErrors (fun f => length (fieldTokens f)) fields
                  (fun f => proj2 (builtinErrors_about f))).
    pose proof (flat_map_length_le (customErrors (customValidators v))
                  (fun f => length (fieldTokens f)) fields
                  (fun f => proj2 (customErrors_about (customValidators v) f))).
    lia.
Qed.

End OutcomeFacts.

Section RuleFacts.
Import Reflect validator Shape.
Import Strings.

Lemma rule_with_param (name : string) (p : string) :
  noByte "=" name = true -> edgeFree " " name = true ->
  ruleName (name +:+ "=" +:+ p) = name.
Proof.
  intros Hn He. unfold ruleName.
  change (name +:+ "=" +:+ p) with (name +:+ String.String "="%char p).
  rewrite Split_app by exact Hn. cbn [nth].
  pose proof (Trim_pad " " 0 0 name He) as H. cbn [pad] in H.
  change (EmptyString +:+ name +:+ EmptyString) with (name +:+ EmptyString) in H.
  replace (name +:+ EmptyString) with name in H; [exact H|].
  clear. induction name; simpl; congruence.
Qed.

(** X6.  The [required] rule never looks at a parameter: [required=false] is as
    binding as [required].  It fails exactly on the zero value: the empty
    text, the integer 0, a nil pointer. *)
Theorem X6_required_ignores_parameter `{O : Regexp.Oracle} (p typ s name : string)
        (k : IntKind) (i : Z) (elem : option Value) :
  let fails := Some (errorString "field is required") in
  applyValidationRule ("required=" +:+ p) (VString typ s) name
    = match s with EmptyString => fails | _ => None end
  /\ applyValidationRule ("required=" +:+ p) (VInt k typ i) name
     = (if i =? 0 then fails else None)
  /\ applyValidationRule ("required=" +:+ p) (VPointer typ elem) name
     = match elem with None => fails | Some _ => None end
  /\ (forall v, applyValidationRule ("required=" +:+ p) v name
                = applyValidationRule "required" v name).
Proof.
  intros fails.
  assert (Hall : forall v, applyValidationRule ("required=" +:+ p) v name
                           = if IsZero v then fails else None).
  { intros v. unfold applyValidationRule.
    change ("required=" +:+ p) with ("required" +:+ "=" +:+ p).
    rewrite (rule_with_param "required" p) by reflexivity. reflexivity. }
  split; [|split; [|split]].
  - rewrite Hall. destruct s; reflexivity.
  - rewrite Hall. reflexivity.
  - rewrite Hall. destruct elem; reflexivity.
  - intros v. rewrite Hall. reflexivity.
Qed.

(** X7.  A bound that [Atoi] rejects is reported on every field, whatever its
    kind and value, also on the kinds the rule otherwise lets pass:
    ["invalid min value"] for [min], ["invalid max value"] for [max].  A
    bare [min] or [max], without a parameter, is such a case. *)
Theorem X7_unparsable_bound `{O : Regexp.Oracle} (minRule maxRule : string)
        (v : Value) (name : string) :
  ruleName minRule = min -> Strconv.Atoi (ruleValue minRule) = None ->
  ruleName maxRule = max -> Strconv.Atoi (ruleValue maxRule) = None ->
  applyValidationRule minRule v name = Some (errorString "invalid min value")
  /\ applyValidationRule maxRule v name = Some (errorString "invalid max value")
  /\ applyValidationRule "min" v name = Some (errorString "invalid min value")
  /\ applyValidationRule "max" v name = Some (errorString "invalid max value").
Proof.
  intros Hn1 Ha1 Hn2 Ha2. unfold applyValidationRule.
  rewrite Hn1, Hn2. cbn [String.eqb]. 
  unfold validateMin, validateMax. rewrite Ha1, Ha2.
  split; [|split; [|split]]; reflexivity.
Qed.

Lemma X7_unparsable_bound_witness :
  @applyValidationRule Regexp.silent "min=2.5" (VOpaque KFloat64 "float64" false) "Price"
  = Some (errorString "invalid min value").
Proof.
  exact (proj1 (@X7_unparsable_bound Regexp.silent "min=2.5" "max=ten"
                  (VOpaque KFloat64 "float64" false) "Price"
                  eq_refl eq_refl eq_refl eq_refl)).
Defined.

Lemma digits_noByte c s acc n :
  Strconv.is_digit c = false -> Strconv.digits s acc = Some n -> noByte c s = true.
Proof.
  intros Hc. revert acc. induction s as [|a s IH]; intros acc; simpl; [reflexivity|].
  destruct (Strconv.is_digit a) eqn:Ha; [|discriminate].
  intros H. rewrite (IH _ H), andb_true_r.
  destruct (Ascii.eqb_spec a c) as [->|]; [congruence|reflexivity].
Qed.

Lemma digits_endsWith c s acc n :
  Strconv.is_digit c = false -> Strconv.digits s acc = Some n -> endsWith c s = false.
Proof.
  intros Hc. revert acc. induction s as [|a s IH]; intros acc; simpl; [reflexivity|].
  destruct (Strconv.is_digit a) eqn:Ha; [|discriminate].
  intros H. destruct s as [|b s].
  - destruct (Ascii.eqb_spec a c) as [->|]; [congruence|reflexivity].
  - exact (IH _ H).
Qed.

(** What [Atoi] accepts holds no comma, no [=] and no space. *)
Lemma Atoi_shape s n :
  Strconv.Atoi s = Some n ->
  noByte "," s = true /\ noByte "=" s = true /\ Trim s " " = s.
Proof.
  unfold Strconv.Atoi. destruct s as [|a s]; [discriminate|]. cbv zeta.
  intros HA.
  assert (Hshape : forall c, Strconv.is_digit c = false -> c <> "-"%char -> c <> "+"%char ->
                     noByte c (String.String a s) = true
                     /\ endsWith c (String.String a s) = false
                     /\ a <> c).
  { intros c Hc Hm Hp.
    destruct (Ascii.eqb a "-" || Ascii.eqb a "+") eqn:Hsign.
    - destruct s as [|b s']; [discriminate|].
      destruct (Strconv.digits (String.String b s') 0) as [m|] eqn:Hd; [|discriminate].
      assert (a <> c).
      { apply orb_true_iff in Hsign as [H|H]; apply Ascii.eqb_eq in H; congruence. }
      split; [|split; [|assumption]].
      + change (noByte c (String.String a (String.String b s')))
          with (negb (Ascii.eqb a c) && noByte c (String.String b s')).
        rewrite (digits_noByte c _ _ _ Hc Hd), andb_true_r.
        now destruct (Ascii.eqb_spec a c).
      + exact (digits_endsWith c _ _ _ Hc Hd).
    - destruct (Strconv.digits (String.String a s) 0) as [m|] eqn:Hd; [|discriminate].
      split; [exact (digits_noByte c _ _ _ Hc Hd)|].
      split; [exact (digits_endsWith c _ _ _ Hc Hd)|].
      intros ->. simpl in Hd. now rewrite Hc in Hd. }
  destruct (Hshape ","%char) as (H1 & _ & _); [reflexivity|discriminate|discriminate|].
  destruct (Hshape "="%char) as (H2 & _ & _); [reflexivity|discriminate|discriminate|].
  destruct (Hshape " "%char) as (_ & H3 & H4); [reflexivity|discriminate|discriminate|].
  split; [exact H1|split; [exact H2|]].
  unfold Trim. cbn [TrimLeft].
  destruct (Ascii.eqb_spec a " ") as [|_]; [contradiction|].
  now apply TrimRight_id.
Qed.

Lemma noByte_app c a b : noByte c (a +:+ b) = noByte c a && noByte c b.
Proof. induction a as [|x a IH]; simpl; [reflexivity|]. now rewrite IH, andb_assoc. Qed.

Lemma rule_min `{O : Regexp.Oracle} p N v name :
  Strconv.Atoi p = Some N ->
  applyValidationRule ("min=" +:+ p) v name = validateMin v p.
Proof.
  intros Hp. destruct (Atoi_shape _ _ Hp) as (_ & Heq & Htrim).
  unfold applyValidationRule, ruleName, ruleValue.
  change ("min=" +:+ p) with ("min" +:+ "=" +:+ p).
  rewrite (Split_one "min" p eq_refl Heq). cbn [nth length Nat.ltb Nat.leb].
  rewrite Htrim. reflexivity.
Qed.

Lemma rule_max `{O : Regexp.Oracle} p N v name :
  Strconv.Atoi p = Some N ->
  applyValidationRule ("max=" +:+ p) v name = validateMax v p.
Proof.
  intros Hp. destruct (Atoi_shape _ _ Hp) as (_ & Heq & Htrim).
  unfold applyValidationRule, ruleName, ruleValue.
  change ("max=" +:+ p) with ("max" +:+ "=" +:+ p).
  rewrite (Split_one "max" p eq_refl Heq). cbn [nth length Nat.ltb Nat.leb].
  rewrite Htrim. reflexivity.
Qed.

Lemma window_tokens a b A B :
  Strconv.Atoi a = Some A -> Strconv.Atoi b = Some B ->
  Split ("min=" +:+ a +:+ ",max=" +:+ b) "," = ["min=" +:+ a; "max=" +:+ b].
Proof.
  intros Ha Hb.
  destruct (Atoi_shape _ _ Ha) as (Hca & _ & _).
  destruct (Atoi_shape _ _ Hb) as (Hcb & _ & _).
  replace ("min=" +:+ a +:+ ",max=" +:+ b)
    with (("min=" +:+ a) +:+ String.String ","%char ("max=" +:+ b)).
  - rewrite Split_app, Split_noByte; [reflexivity| |].
    + rewrite noByte_app, Hcb. reflexivity.
    + rewrite noByte_app, Hca. reflexivity.
  - rewrite append_assoc3. reflexivity.
Qed.

Lemma builtinErrors_field `{O : Regexp.Oracle} name ann v :
  builtinErrors (field name ann, v) =
  if String.eqb ann EmptyString then []
  else flat_map
         (fun rule =>
            match applyValidationRule rule v name with
            | Some err => [ {| Field := name; Message := errorText err |} ]
            | None => []
            end)
         (Split ann ",").
Proof. reflexivity. Qed.

(** X8.  A field annotated [min=A,max=B] passes both rules exactly when its
    measure lies between the two bounds: the value for a signed integer,
    the number of bytes for a text.  Otherwise the min entry, the max
    entry or both are reported. *)
Theorem X8_min_max_window `{O : Regexp.Oracle} (a b : string) (A B : Z)
        (name typ s : string) (k : IntKind) (i : Z) :
  Strconv.Atoi a = Some A ->
  Strconv.Atoi b = Some B ->
  let f := field name ("min=" +:+ a +:+ ",max=" +:+ b) in
  (builtinErrors (f, VInt k typ i) = [] <-> A <= i <= B)
  /\ (builtinErrors (f, VString typ s) = [] <-> A <= Z.of_nat (String.length s) <= B).
Proof.
  intros Ha Hb f. subst f. rewrite !builtinErrors_field.
  change (String.eqb ("min=" +:+ a +:+ ",max=" +:+ b) EmptyString) with false. cbv iota.
  rewrite (window_tokens a b A B Ha Hb). cbn [flat_map].
  rewrite !(rule_min a A _ _ Ha), !(rule_max b B _ _ Hb).
  destruct (validateMax_above_bound b B typ s k i KBool false Hb) as (Hxs & Hxi & _).
  destruct (validateMin_below_bound a A typ s k i Ha) as (Hns & Hni).
  rewrite Hxs, Hxi, Hns, Hni.
  split.
  - destruct (Z.ltb_spec i A), (Z.ltb_spec B i); cbn [app];
      split; intros Hx; try discriminate; try reflexivity; lia.
  - destruct (Z.ltb_spec (Z.of_nat (String.length s)) A),
             (Z.ltb_spec B (Z.of_nat (String.length s))); cbn [app];
      split; intros Hx; try discriminate; try reflexivity; lia.
Qed.

Lemma X8_min_max_window_witness :
  @builtinErrors Regexp.silent (field "Age" "min=18,max=100", VInt KInt "int" 25) = []
  <-> 18 <= 25 <= 100.
Proof.
  exact (proj1 (@X8_min_max_window Regexp.silent "18" "100" 18 100 "Age" "int" "x" KInt 25
                  eq_refl eq_refl)).
Defined.

End RuleFacts.

(** ** The earlier revision and the email pattern *)

Section EarlierRevision.
Import Reflect validator Shape.

Lemma part_000_fold `{O : Regexp.Oracle} (f : StructField * Value) rules v :
  fold_left
    (fun v rule =>
       match applyValidationRule rule (snd f) (Name (fst f)) with
       | Some err =>
           {| part_000.errors := part_000.errors v
                ++ [ {| Field := Name (fst f); Message := errorText err |} ] |}
       | None => v
       end) rules v
  = {| part_000.errors := part_000.errors v
         ++ flat_map (fun rule =>
                        match applyValidationRule rule (snd f) (Name (fst f)) with
                        | Some err => [ {| Field := Name (fst f); Message := errorText err |} ]
                        | None => []
                        end) rules |}.
Proof.
  revert v. induction rules as [|rule rules IH]; intros [errs]; cbn [fold_left flat_map].
  - cbn. f_equal. symmetry. apply app_nil_r.
  - rewrite IH. destruct (applyValidationRule rule (snd f) (Name (fst f)));
      cbn [part_000.errors]; [now rewrite <- app_assoc|reflexivity].
Qed.

Lemma part_000_validateFields_spec `{O : Regexp.Oracle} v fields typ zero :
  part_000.validateFields v (VStruct typ zero fields)
  = {| part_000.errors := part_000.errors v ++ flat_map builtinErrors fields |}.
Proof.
  unfold part_000.validateFields. cbn [Fields].
  revert v. induction fields as [|f fields IH]; intros [errs]; cbn [fold_left flat_map].
  - cbn. f_equal. symmetry. apply app_nil_r.
  - rewrite IH. cbv zeta. f_equal.
    match goal with
    | |- part_000.errors ?x ++ _ = _ =>
        assert (Hstep : part_000.errors x = errs ++ builtinErrors f)
    end.
    { unfold builtinErrors.
      destruct (String.eqb (Get (Tag (fst f)) validate) EmptyString).
      - cbn [part_000.errors]. symmetry. apply app_nil_r.
      - rewrite part_000_fold. reflexivity. }
    rewrite Hstep, <- app_assoc. reflexivity.
Qed.

(** X9.  The earlier revision and the present one agree wherever no custom
    validator is registered: on every input they return the same error.
    On a pointer to a struct the present aggregate is, for any registry,
    the earlier aggregate followed by the custom-validator failures. *)
Theorem X9_earlier_revision_agrees `{O : Regexp.Oracle} (v0 : part_000.Validator)
        (stale : ValidationErrors) (v : Validator) (s : rValue)
        (ptyp styp : string) (zero : bool) (fields : list (StructField * Value)) :
  let input := Some (VPointer ptyp (Some (VStruct styp zero fields))) in
  fst (part_000.Validate v0 s)
  = fst (fst (Validate {| errors := stale; customValidators := ∅ |} s))
  /\ errors (snd (fst (Validate v input)))
     = part_000.errors (snd (part_000.Validate v0 input))
       ++ flat_map (customErrors (customValidators v)) fields.
Proof.
  intros input. split.
  - destruct s as [p|]; [|reflexivity].
    destruct p as [? ?|k ? ?|? ? ?|pt elem|k ? ?]; try destruct k; try reflexivity.
    destruct elem as [q|]; [|reflexivity].
    destruct q as [? ?|k ? ?|st z fs|? ?|k ? ?]; try destruct k; try reflexivity.
    rewrite Validate_struct. cbn [fst]. unfold aggregate. cbn [customValidators].
    assert (Hnil : flat_map (customErrors ∅) fs = []).
    { clear. induction fs as [|f fs IH]; cbn [flat_map]; [reflexivity|].
      rewrite IH, customErrors_miss; [reflexivity|].
      apply Forall_forall. intros rule _. apply lookup_empty. }
    rewrite Hnil, app_nil_r.
    unfold part_000.Validate. cbn [KindOf ValueKind Kind.eqb negb Elem].
    rewrite part_000_validateFields_spec. cbn [part_000.errors app].
    destruct (flat_map builtinErrors fs); reflexivity.
  - subst input. rewrite Validate_struct. cbn [fst snd errors]. unfold aggregate.
    unfold part_000.Validate. cbn [KindOf ValueKind Kind.eqb negb Elem].
    rewrite part_000_validateFields_spec. cbn [part_000.errors app].
    destruct (flat_map builtinErrors fields); reflexivity.
Qed.

End EarlierRevision.

Section EmailShape.
Import Utf8 Regexp Reflect validator Shape.

Lemma Matches_class_inv pre neg rs s post :
  Matches pre (Class neg rs) s post ->
  exists c, s = [c] /\ classMatches neg rs c = true.
Proof. inversion 1; subst. eauto. Qed.

Lemma Matches_concat_inv pre r1 r2 s post :
  Matches pre (Concat r1 r2) s post ->
  exists s1 s2, s = s1 ++ s2
                /\ Matches pre r1 s1 (s2 ++ post)
                /\ Matches (pre ++ s1) r2 s2 post.
Proof. inversion 1; subst. eauto. Qed.

Lemma Matches_star_class pre neg rs s post :
  Matches pre (Star (Class neg rs)) s post ->
  forallb (classMatches neg rs) s = true.
Proof.
  intros H. remember (Star (Class neg rs)) as r eqn:Hr.
  induction H; try discriminate.
  - reflexivity.
  - injection Hr as ->.
    destruct (Matches_class_inv _ _ _ _ _ H) as (c & -> & Hc).
    cbn [app forallb]. rewrite Hc. now apply IHMatches2.
Qed.

Lemma star_class_intro neg rs s :
  forallb (classMatches neg rs) s = true ->
  forall pre post, Matches pre (Star (Class neg rs)) s post.
Proof.
  induction s as [|c s IH]; intros H pre post.
  - constructor.
  - cbn [forallb] in H. apply andb_true_iff in H as [Hc Hs].
    change (c :: s) with ([c] ++ s). apply MStarS.
    + now constructor.
    + now apply IH.
Qed.

Lemma Matches_plus_class pre neg rs s post :
  Matches pre (Concat (Class neg rs) (Star (Class neg rs))) s post
  <-> s <> [] /\ forallb (classMatches neg rs) s = true.
Proof.
  split.
  - intros H. destruct (Matches_concat_inv _ _ _ _ _ H) as (s1 & s2 & -> & H1 & H2).
    destruct (Matches_class_inv _ _ _ _ _ H1) as (c & -> & Hc).
    split; [discriminate|]. cbn [app forallb]. rewrite Hc.
    now apply Matches_star_class in H2.
  - intros [Hne H]. destruct s as [|c s]; [congruence|].
    cbn [forallb] in H. apply andb_true_iff in H as [Hc Hs].
    change (c :: s) with ([c] ++ s). apply MConcat.
    + now constructor.
    + now apply star_class_intro.
Qed.

Lemma localChar_class c :
  classMatches false
    [(97, 122); (65, 90); (48, 57); (46, 46); (95, 95); (37, 37); (43, 43); (45, 45)]%N c
  = localChar c.
Proof.
  unfold classMatches, inRanges, localChar, isLetter, isDecimal.
  cbn [existsb fst snd xorb]. apply eq_true_iff_eq.
  rewrite ?orb_true_iff, ?andb_true_iff, ?N.leb_le, ?N.eqb_eq. lia.
Qed.

Lemma domainChar_class c :
  classMatches false [(97, 122); (65, 90); (48, 57); (46, 46); (45, 45)]%N c
  = domainChar c.
Proof.
  unfold classMatches, inRanges, domainChar, isLetter, isDecimal.
  cbn [existsb fst snd xorb]. apply eq_true_iff_eq.
  rewrite ?orb_true_iff, ?andb_true_iff, ?N.leb_le, ?N.eqb_eq. lia.
Qed.

Lemma isLetter_class c :
  classMatches false [(97, 122); (65, 90)]%N c = isLetter c.
Proof.
  unfold classMatches, inRanges, isLetter.
  cbn [existsb fst snd xorb]. apply eq_true_iff_eq.
  rewrite ?orb_true_iff, ?andb_true_iff, ?N.leb_le, ?N.eqb_eq. lia.
Qed.

Lemma literal_inv pre c s post :
  Matches pre (Class false [(c, c)]) s post -> s = [c].
Proof.
  intros H. destruct (Matches_class_inv _ _ _ _ _ H) as (c' & -> & Hc).
  unfold classMatches, inRanges in Hc. cbn [existsb fst snd xorb] in Hc.
  rewrite orb_false_r in Hc. apply andb_true_iff in Hc as [H1 H2].
  apply N.leb_le in H1, H2. f_equal. lia.
Qed.

Lemma literal_intro pre c post : Matches pre (Class false [(c, c)]) [c] post.
Proof.
  constructor. unfold classMatches, inRanges. cbn [existsb fst snd xorb].
  now rewrite N.leb_refl.
Qed.

Lemma forallb_ext_eq {A} (f g : A -> bool) l :
  (forall x, f x = g x) -> forallb f l = forallb g l.
Proof. intros H. induction l as [|x l IH]; cbn; [reflexivity|]. now rewrite H, IH. Qed.

Lemma MConcat_eq pre post r1 r2 s s1 s2 :
  s = s1 ++ s2 ->
  Matches pre r1 s1 (s2 ++ post) ->
  Matches (pre ++ s1) r2 s2 post ->
  Matches pre (Concat r1 r2) s post.
Proof. intros ->. apply MConcat. Qed.

Lemma emailExpr_shape text : FullMatch emailExpr text <-> emailShape text.
Proof.
  unfold FullMatch, emailShape, emailExpr. split.
  - intros H.
    apply Matches_concat_inv in H as (s0 & r0 & -> & Hb & H).
    inversion Hb; subst. cbn [app] in *.
    apply Matches_concat_inv in H as (l & r1 & -> & Hl & H).
    apply Matches_plus_class in Hl as [Hl1 Hl2].
    apply Matches_concat_inv in H as (a & r2 & -> & Ha & H).
    apply literal_inv in Ha as ->.
    apply Matches_concat_inv in H as (d & r3 & -> & Hd & H).
    apply Matches_plus_class in Hd as [Hd1 Hd2].
    apply Matches_concat_inv in H as (p & r4 & -> & Hp & H).
    apply literal_inv in Hp as ->.
    apply Matches_concat_inv in H as (t & e & -> & Ht & He).
    inversion He; subst.
    apply Matches_concat_inv in Ht as (t1 & t2 & -> & Ht1 & Ht2).
    apply Matches_class_inv in Ht1 as (c1 & -> & Hc1).
    apply Matches_plus_class in Ht2 as [Ht21 Ht22].
    exists l, d, ([c1] ++ t2). rewrite ?app_nil_r.
    rewrite (forallb_ext_eq _ _ _ localChar_class) in Hl2.
    rewrite (forallb_ext_eq _ _ _ domainChar_class) in Hd2.
    rewrite (forallb_ext_eq _ _ _ isLetter_class) in Ht22.
    rewrite isLetter_class in Hc1.
    split; [reflexivity|]. split; [assumption|]. split; [assumption|].
    split; [assumption|]. split; [assumption|]. split.
    + destruct t2; [congruence|]. cbn. lia.
    + cbn [app forallb]. now rewrite Hc1.
  - intros (l & d & t & -> & Hl1 & Hl2 & Hd1 & Hd2 & Ht1 & Ht2).
    rewrite <- (forallb_ext_eq _ _ _ localChar_class) in Hl2.
    rewrite <- (forallb_ext_eq _ _ _ domainChar_class) in Hd2.
    rewrite <- (forallb_ext_eq _ _ _ isLetter_class) in Ht2.
    destruct t as [|c1 t2]; [cbn in Ht1; lia|].
    destruct t2 as [|c2 t3]; [cbn in Ht1; lia|].
    cbn [forallb] in Ht2. apply andb_true_iff in Ht2 as [Hc1 Ht2].
    apply (MConcat_eq _ _ _ _ _ [] (l ++ [64%N] ++ d ++ [46%N] ++ c1 :: c2 :: t3));
      [reflexivity|constructor|]. cbn [app].
    apply (MConcat_eq _ _ _ _ _ l ([64%N] ++ d ++ [46%N] ++ c1 :: c2 :: t3));
      [reflexivity|now apply Matches_plus_class|].
    apply (MConcat_eq _ _ _ _ _ [64%N] (d ++ [46%N] ++ c1 :: c2 :: t3));
      [reflexivity|apply literal_intro|].
    apply (MConcat_eq _ _ _ _ _ d ([46%N] ++ c1 :: c2 :: t3));
      [reflexivity|now apply Matches_plus_class|].
    apply (MConcat_eq _ _ _ _ _ [46%N] (c1 :: c2 :: t3));
      [reflexivity|apply literal_intro|].
    apply (MConcat_eq _ _ _ _ _ (c1 :: c2 :: t3) []);
      [symmetry; apply app_nil_r| |constructor].
    apply (MConcat_eq _ _ _ _ _ [c1] (c2 :: t3)); [reflexivity|now constructor|].
    apply Matches_plus_class. split; [discriminate|exact Ht2].
Qed.

(** X10.  What the email pattern accepts, character by character: the
    text must read [local@domain.tld] with a non-empty local part of
    letters, digits and [. _ % + -], a non-empty domain of letters,
    digits, [.] and [-], and a last label of at least two letters.  The
    [email] rule passes a string field exactly on these texts, and the
    unused [isValidEmail] of the earlier revision, whose pattern is
    written out a second time, accepts exactly the same texts, as does
    its [matchRegex] given the email pattern. *)
Theorem X10_email_shape `{O : Oracle} (s typ name : string) :
  (applyValidationRule email (VString typ s) name = None <-> emailShape (runes s))
  /\ (part_000.isValidEmail s = true <-> emailShape (runes s))
  /\ part_000.isValidEmail s = isMatchedRegex s emailRegexPattern
  /\ part_000.matchRegex s emailRegexPattern = part_000.isValidEmail s.
Proof.
  assert (Hv : part_000.isValidEmail s = search emailExpr true (runes s)).
  { unfold part_000.isValidEmail, MatchString.
    change (Parse "^[a-zA-Z0-9._%+-]+@[a-zA-Z0-9.-]+\.[a-zA-Z]{2,}$")
      with (Parse emailRegexPattern).
    now rewrite Parse_email. }
  assert (Hs : search emailExpr true (runes s) = true <-> emailShape (runes s)).
  { rewrite search_Contains, (Contains_anchored emailExpr) by reflexivity.
    apply emailExpr_shape. }
  split; [|split; [|split]].
  - rewrite applyValidationRule_email by reflexivity.
    cbn [Reflect.String]. rewrite isMatchedRegex_email, <- Hs.
    destruct (search emailExpr true (runes s)); split; congruence.
  - now rewrite Hv.
  - now rewrite Hv, isMatchedRegex_email.
  - unfold part_000.matchRegex, part_000.isValidEmail. reflexivity.
Qed.

End EmailShape.

(** ** The text of an aggregate *)

Section RenderingFacts.
Import Reflect validator.

Lemma Error_cons2 e e' rest :
  Error (e :: e' :: rest) = clause e +:+ "; " +:+ Error (e' :: rest).
Proof. rewrite !Error_map. cbn [map]. apply Join_cons. Qed.

Lemma Error_app_cons a e b :
  a <> [] -> Error (a ++ e :: b) = Error a +:+ "; " +:+ Error (e :: b).
Proof.
  induction a as [|x a IH]; intros Hne; [congruence|].
  destruct a as [|y a].
  - cbn [app]. rewrite Error_cons2. reflexivity.
  - change ((x :: y :: a) ++ e :: b) with (x :: y :: (a ++ e :: b)).
    rewrite Error_cons2.
    change (y :: a ++ e :: b) with ((y :: a) ++ e :: b).
    rewrite IH by discriminate.
    rewrite (Error_cons2 x y a). now rewrite !append_assoc3.
Qed.

(** X11.  The text of an aggregate composes: the text of two non-empty aggregates
    put end to end is the two texts with ["; "] between them.  On a
    pointer to a struct with failures in both passes, the text [Validate]
    returns is therefore the text of the built-in failures, then ["; "],
    then the text of the custom-validator failures. *)
Theorem X11_error_text_composes `{O : Regexp.Oracle} (a b : ValidationErrors)
        (v : Validator) (ptyp styp : string) (zero : bool)
        (fields : list (StructField * Value)) :
  a <> [] -> b <> [] ->
  Error (a ++ b) = Error a +:+ "; " +:+ Error b
  /\ (flat_map builtinErrors fields = a ->
      flat_map (customErrors (customValidators v)) fields = b ->
      option_map errorText
        (fst (fst (Validate v (Some (VPointer ptyp (Some (VStruct styp zero fields)))))))
      = Some (Error a +:+ "; " +:+ Error b)).
Proof.
  intros Ha Hb.
  assert (H : Error (a ++ b) = Error a +:+ "; " +:+ Error b).
  { destruct b as [|e b]; [congruence|]. now apply Error_app_cons. }
  split; [exact H|]. intros Hba Hcb.
  rewrite Validate_struct. cbn [fst]. unfold aggregate. rewrite Hba, Hcb.
  revert H. destruct (a ++ b) eqn:E; intros H.
  - apply app_eq_nil in E as [? _]. congruence.
  - cbn [option_map errorText]. f_equal. exact H.
Qed.

Lemma X11_error_text_composes_witness :
  Error ([ {| Field := "Name"; Message := "field is required" |} ]
         ++ [ {| Field := "Age"; Message := "value must be at least 18" |} ])
  = "Name : field is required; Age : value must be at least 18".
Proof.
  exact (proj1 (@X11_error_text_composes Regexp.silent
                  [ {| Field := "Name"; Message := "field is required" |} ]
                  [ {| Field := "Age"; Message := "value must be at least 18" |} ]
                  New "*T" "T" false []
                  ltac:(discriminate) ltac:(discriminate))).
Defined.

End RenderingFacts.

(** ** The serializer *)

Section SerializerFacts.
Import jsonserilizer.

Lemma setField_panicked `{T : Types} r l fields :
  fold_left (setField r) l (true, fields) = (true, fields).
Proof. induction l as [|i l IH]; [reflexivity|exact IH]. Qed.

Lemma Set_spec `{T : Types} r (f : StructField * any) val :
  index r (Name (fst f)) = Some val ->
  Set_ (fst f) val = if refused r f then Panics else Returns (written r f).
Proof.
  intros H. unfold Set_, refused, written. rewrite H.
  destruct (IsExported (fst f)); cbn [negb]; [|reflexivity].
  destruct val as [x|]; [|reflexivity].
  destruct (AssignableTo (TypeOf x) (Typ (fst f))); reflexivity.
Qed.

Lemma index_miss `{T : Types} r (f : StructField * any) :
  index r (Name (fst f)) = None -> refused r f = false /\ written r f = snd f.
Proof. intros H. unfold refused, written. now rewrite H. Qed.

Lemma Deserialize_loop_from `{T : Types} r pre fs :
  fold_left (setField r) (seq (length pre) (length fs)) (false, pre ++ fs)
  = (fst (writeAll r fs), pre ++ snd (writeAll r fs)).
Proof.
  revert pre. induction fs as [|f fs IH]; intros pre.
  - reflexivity.
  - cbn [length seq fold_left writeAll]. unfold setField at 2.
    rewrite list_lookup_middle by reflexivity.
    destruct f as [field old].
    destruct (index r (Name field)) as [val|] eqn:Hi.
    + pose proof (Set_spec r (field, old) val Hi) as Hs. cbn [fst] in Hs. rewrite Hs.
      destruct (refused r (field, old)).
      * now rewrite setField_panicked.
      * replace (<[length pre:=(field, written r (field, old))]> (pre ++ (field, old) :: fs))
          with ((pre ++ [(field, written r (field, old))]) ++ fs).
        2:{ rewrite <- app_assoc. cbn [app].
            rewrite insert_app_r_alt by lia. now rewrite Nat.sub_diag. }
        replace (S (length pre)) with (length (pre ++ [(field, written r (field, old))]))
          by (rewrite length_app; cbn; lia).
        rewrite IH. destruct (writeAll r fs) as [b rest]. cbn [fst snd].
        now rewrite <- app_assoc.
    + destruct (index_miss r (field, old) Hi) as [Hr Hw]. rewrite Hr, Hw. cbn [fst snd].
      replace (pre ++ (field, old) :: fs) with ((pre ++ [(field, old)]) ++ fs)
        by now rewrite <- app_assoc.
      replace (S (length pre)) with (length (pre ++ [(field, old)]))
        by (rewrite length_app; cbn; lia).
      rewrite IH. destruct (writeAll r fs) as [b rest]. cbn [fst snd].
      now rewrite <- app_assoc.
Qed.

Lemma Deserialize_struct `{T : Types} r pt st fields :
  Deserialize r (Some (VPointer pt (Some (VStruct st fields))))
  = (if fst (writeAll r fields) then Panics else Returns None,
     Some (VPointer pt (Some (VStruct st (snd (writeAll r fields)))))).
Proof.
  unfold Deserialize. cbn [KindOf ValueKind Kind.eqb negb].
  pose proof (Deserialize_loop_from r [] fields) as H. cbn [length app] in H.
  rewrite H. reflexivity.
Qed.


Lemma Serialize_panicked `{T : Types} (fields : list (StructField * any)) l :
  fold_left
    (fun (st : outcome (gmap string any)) (i : nat) =>
       match st with
       | Panics => Panics
       | Returns result =>
           match fields !! i with
           | None => Panics
           | Some (field, filedValue) =>
               match Interface field filedValue with
               | Panics => Panics
               | Returns x => Returns (<[Name field := x]> result)
               end
           end
       end) l Panics = Panics.
Proof. induction l as [|i l IH]; [reflexivity|exact IH]. Qed.

Lemma Serialize_loop_from `{T : Types} pre fs (m : gmap string any) :
  fold_left
    (fun (st : outcome (gmap string any)) (i : nat) =>
       match st with
       | Panics => Panics
       | Returns result =>
           match (pre ++ fs) !! i with
           | None => Panics
           | Some (field, filedValue) =>
               match Interface field filedValue with
               | Panics => Panics
               | Returns x => Returns (<[Name field := x]> result)
               end
           end
       end) (seq (length pre) (length fs)) (Returns m)
  = if forallb (fun f => IsExported (fst f)) fs then Returns (readAll fs m) else Panics.
Proof.
  revert pre m. induction fs as [|f fs IH]; intros pre m.
  - reflexivity.
  - cbn [length seq fold_left forallb readAll].
    rewrite list_lookup_middle by reflexivity.
    destruct f as [field c]. unfold Interface. cbn [fst snd].
    destruct (IsExported field); cbn [andb].
    + replace (pre ++ (field, c) :: fs) with ((pre ++ [(field, c)]) ++ fs)
        by now rewrite <- app_assoc.
      replace (S (length pre)) with (length (pre ++ [(field, c)]))
        by (rewrite length_app; cbn; lia).
      apply IH.
    + apply Serialize_panicked.
Qed.

Lemma Serialize_struct `{T : Types} t fields :
  Serialize (Some (VStruct t fields))
  = if forallb (fun f => IsExported (fst f)) fields
    then Returns (Some (readAll fields ∅)) else Panics.
Proof.
  unfold Serialize. cbn [ValueKind Kind.eqb negb].
  pose proof (Serialize_loop_from [] fields ∅) as H. cbn [length app] in H.
  rewrite H. now destruct (forallb _ fields).
Qed.

Lemma readAll_miss `{T : Types} fs (m : gmap string any) k :
  ~ In k (map (fun f => Name (fst f)) fs) -> readAll fs m !! k = m !! k.
Proof.
  revert m. induction fs as [|f fs IH]; intros m Hk; [reflexivity|].
  cbn [readAll fold_left]. cbn [map] in Hk.
  change (fold_left _ fs ?a) with (readAll fs a).
  rewrite IH by (intros Hin; apply Hk; now right).
  apply lookup_insert_ne. intros <-. apply Hk. now left.
Qed.

Lemma readAll_hit `{T : Types} fs (m : gmap string any) f :
  NoDup (map (fun f => Name (fst f)) fs) -> In f fs ->
  readAll fs m !! Name (fst f) = Some (snd f).
Proof.
  revert m. induction fs as [|g fs IH]; intros m Hnd Hin; [destruct Hin|].
  cbn [readAll fold_left]. change (fold_left _ fs ?a) with (readAll fs a).
  cbn [map] in Hnd. apply NoDup_cons in Hnd as [Hg Hnd].
  destruct Hin as [->|Hin].
  - rewrite readAll_miss by (intros Hin; apply Hg; now apply list_elem_of_In).
    apply lookup_insert_eq.
  - now apply IH.
Qed.

Lemma readAll_key `{T : Types} fs (m : gmap string any) k :
  In k (map (fun f => Name (fst f)) fs) -> readAll fs m !! k <> None.
Proof.
  revert m. induction fs as [|g fs IH]; intros m Hin; [destruct Hin|].
  cbn [readAll fold_left]. change (fold_left _ fs ?a) with (readAll fs a).
  destruct (in_dec string_dec k (map (fun f => Name (fst f)) fs)) as [Hk|Hk].
  - now apply IH.
  - rewrite readAll_miss by exact Hk.
    destruct Hin as [<-|Hin]; [|contradiction].
    now rewrite lookup_insert_eq.
Qed.

Lemma Serialize_other `{T : Types} (v : Value) :
  (exists t fields, v = VStruct t fields)
  \/ (ValueKind v <> Kind.Struct /\ Serialize (Some v) = Returns None).
Proof.
  destruct v as [t s|k t i|t fields|t elem|k t id]; [right|right|left|right|right];
    try destruct k; try (split; [discriminate|reflexivity]).
  eauto.
Qed.

(** X12.  What [Serialize] does, case by case.  It panics exactly on the nil
    interface and on a struct with an unexported field.  It returns the
    nil map exactly on a value that is not a struct (a pointer to a
    struct included).  Otherwise it returns a map whose keys are exactly
    the field names, each field found under its name with its content. *)
Theorem X12_serialize_cases `{T : Types} (s : any) :
  match Serialize s with
  | Panics =>
      s = None
      \/ exists t fields, s = Some (VStruct t fields)
                          /\ Exists (fun f => IsExported (fst f) = false) fields
  | Returns None => exists v, s = Some v /\ ValueKind v <> Kind.Struct
  | Returns (Some m) =>
      exists t fields,
        s = Some (VStruct t fields)
        /\ Forall (fun f => IsExported (fst f) = true) fields
        /\ (forall k, m !! k = None <-> ~ In k (map (fun f => Name (fst f)) fields))
        /\ (NoDup (map (fun f => Name (fst f)) fields) ->
            forall f, In f fields -> m !! Name (fst f) = Some (snd f))
  end.
Proof.
  destruct s as [v|]; [|now left].
  destruct (Serialize_other v) as [(t & fields & ->)|[Hk ->]];
    [|exists v; split; [reflexivity|exact Hk]].
  rewrite Serialize_struct.
  destruct (forallb (fun f => IsExported (fst f)) fields) eqn:E.
  - exists t, fields. split; [reflexivity|]. split; [|split].
    + apply Forall_forall. intros f Hf.
      apply (proj1 (forallb_forall _ _) E f). now apply list_elem_of_In.
    + intros k. split.
      * intros Hk Hin. now apply (readAll_key fields ∅ k Hin).
      * intros Hk. rewrite readAll_miss by exact Hk. apply lookup_empty.
    + intros Hnd f Hf. now apply readAll_hit.
  - right. exists t, fields. split; [reflexivity|].
    apply Exists_exists.
    assert (H : exists f, In f fields /\ IsExported (fst f) = false).
    { clear -E. induction fields as [|f fs IH]; [discriminate|].
      cbn [forallb] in E. destruct (IsExported (fst f)) eqn:Ef.
      - destruct (IH E) as (g & Hg & Hx). exists g. split; [now right|exact Hx].
      - exists f. split; [now left|exact Ef]. }
    destruct H as (f & Hf & Hx). exists f. split; [now apply list_elem_of_In|exact Hx].
Qed.

End SerializerFacts.

Section DeserializeFacts.
Import jsonserilizer.

Lemma refused_content `{T : Types} r field c c' :
  refused r (field, c) = refused r (field, c').
Proof. reflexivity. Qed.

Lemma writeAll_decl `{T : Types} r fs :
  map fst (snd (writeAll r fs)) = map fst fs.
Proof.
  induction fs as [|f fs IH]; [reflexivity|]. cbn [writeAll].
  destruct (refused r f); [reflexivity|].
  destruct (writeAll r fs) as [b rest]. cbn [fst snd map] in *. now rewrite IH.
Qed.

Lemma writeAll_ok `{T : Types} r fs :
  Forall (fun f => refused r f = false) fs ->
  writeAll r fs = (false, map (fun f => (fst f, written r f)) fs).
Proof.
  induction 1 as [|f fs Hf _ IH]; [reflexivity|].
  cbn [writeAll map]. now rewrite Hf, IH.
Qed.

Lemma writeAll_stop `{T : Types} r before f after :
  Forall (fun f => refused r f = false) before -> refused r f = true ->
  writeAll r (before ++ f :: after)
  = (true, map (fun f => (fst f, written r f)) before ++ f :: after).
Proof.
  intros Hb Hf. induction Hb as [|g before Hg _ IH]; cbn [app writeAll map].
  - now rewrite Hf.
  - now rewrite Hg, IH.
Qed.

Lemma writeAll_first `{T : Types} r fs :
  fst (writeAll r fs) = true ->
  exists before f after,
    fs = before ++ f :: after
    /\ Forall (fun f => refused r f = false) before /\ refused r f = true.
Proof.
  induction fs as [|f fs IH]; [discriminate|]. cbn [writeAll].
  destruct (refused r f) eqn:Hf.
  - intros _. exists [], f, fs. now repeat split.
  - destruct (writeAll r fs) as [b rest]. cbn [fst] in *. intros Hb.
    destruct (IH Hb) as (before & g & after & -> & Hbefore & Hg).
    exists (f :: before), g, after. split; [reflexivity|]. split; [|exact Hg].
    now constructor.
Qed.

Lemma writeAll_panics `{T : Types} r fs :
  fst (writeAll r fs) = true <-> Exists (fun f => refused r f = true) fs.
Proof.
  split.
  - intros H. destruct (writeAll_first r fs H) as (before & f & after & -> & _ & Hf).
    apply Exists_app. right. now left.
  - induction 1 as [f fs Hf|f fs _ IH]; cbn [writeAll].
    + now rewrite Hf.
    + destruct (refused r f); [reflexivity|].
      destruct (writeAll r fs). exact IH.
Qed.

Lemma writeAll_returns `{T : Types} r fs :
  fst (writeAll r fs) = false <-> Forall (fun f => refused r f = false) fs.
Proof.
  split.
  - intros H. apply Forall_forall. intros f Hin.
    destruct (refused r f) eqn:Hf; [|reflexivity].
    assert (Hp : fst (writeAll r fs) = true).
    { apply writeAll_panics. apply Exists_exists. eauto. }
    congruence.
  - intros H. now rewrite writeAll_ok.
Qed.

Lemma writeAll_frame `{T : Types} r fs (i : nat) f :
  fs !! i = Some f -> index r (Name (fst f)) = None ->
  snd (writeAll r fs) !! i = Some f.
Proof.
  revert i. induction fs as [|g fs IH]; intros i Hi Hk; [discriminate|].
  cbn [writeAll]. destruct (refused r g) eqn:Hg; [exact Hi|].
  destruct (writeAll r fs) as [b rest] eqn:E. cbn [snd] in *.
  destruct i as [|i].
  - injection Hi as ->. cbn. unfold written. rewrite Hk. now destruct f.
  - cbn in Hi |- *. now apply IH.
Qed.

Lemma written_again `{T : Types} r field c :
  refused r (field, c) = false ->
  written r (field, written r (field, c)) = written r (field, c).
Proof.
  unfold refused, written. cbn [fst snd].
  destruct (index r (Name field)) as [[x|]|]; reflexivity.
Qed.

Lemma writeAll_again `{T : Types} r fs :
  writeAll r (snd (writeAll r fs)) = writeAll r fs.
Proof.
  induction fs as [|[field c] fs IH]; [reflexivity|]. cbn [writeAll].
  destruct (refused r (field, c)) eqn:Hf.
  - cbn [snd writeAll]. now rewrite Hf.
  - destruct (writeAll r fs) as [b rest] eqn:E. cbn [fst snd writeAll] in *.
    rewrite (refused_content r field _ c), Hf, IH.
    now rewrite written_again.
Qed.

Lemma writeAll_nokey `{T : Types} r fs :
  (forall k, index r k = None) -> writeAll r fs = (false, fs).
Proof.
  intros Hk. induction fs as [|[field c] fs IH]; [reflexivity|].
  cbn [writeAll]. unfold refused, written. cbn [fst snd]. rewrite Hk, IH. reflexivity.
Qed.

(** Every [refOut] is a pointer to a struct or is turned away with one
    of the two errors, whatever the map. *)
Lemma Deserialize_cases `{T : Types} (refOut : any) :
  (exists pt st fields, refOut = Some (VPointer pt (Some (VStruct st fields))))
  \/ (KindOf refOut <> Kind.Pointer
      /\ forall r, Deserialize r refOut
                   = (Returns (Some (Errorf "refOut must be a pointer !")), refOut))
  \/ ((exists pt elem, refOut = Some (VPointer pt elem) /\ KindOf elem <> Kind.Struct)
      /\ forall r, Deserialize r refOut
                   = (Returns (Some (Errorf "refOut must be a pointer struct !")), refOut)).
Proof.
  destruct refOut as [v|]; [|right; left; split; [discriminate|reflexivity]].
  destruct v as [t s|k t i|t fields|pt elem|k t id];
    try (right; left; try destruct k; (split; [discriminate|reflexivity])).
  destruct elem as [q|].
  2:{ right; right. split; [|reflexivity]. exists pt, None. split; [reflexivity|discriminate]. }
  destruct q as [t s|k t i|st fields|t elem|k t id];
    try (right; right; (split; [|reflexivity]); eexists _, _;
         (split; [reflexivity|]); try destruct k; discriminate).
  left. eauto.
Qed.

(** X13.  [Deserialize] returns an error exactly when [refOut] is not a pointer to
    a struct, and then leaves [refOut] as it was: ["refOut must be a
    pointer !"] for anything that is not a pointer (nil included),
    ["refOut must be a pointer struct !"] for a nil pointer and for a
    pointer to anything but a struct.  Given a pointer to a struct it
    never returns an error: it returns nil or panics. *)
Theorem X13_deserialize_errors `{T : Types} (r : Result) (refOut : any) :
  match fst (Deserialize r refOut) with
  | Returns (Some (Errorf msg)) =>
      snd (Deserialize r refOut) = refOut
      /\ ((msg = "refOut must be a pointer !" /\ KindOf refOut <> Kind.Pointer)
          \/ (msg = "refOut must be a pointer struct !"
              /\ exists pt elem, refOut = Some (VPointer pt elem)
                                 /\ KindOf elem <> Kind.Struct))
  | _ => exists pt st fields, refOut = Some (VPointer pt (Some (VStruct st fields)))
  end.
Proof.
  destruct (Deserialize_cases refOut) as [(pt & st & fields & ->)|[[Hk H]|[Hk H]]].
  - rewrite Deserialize_struct. cbn [fst].
    destruct (fst (writeAll r fields)); eauto.
  - rewrite H. cbn [fst snd]. split; [reflexivity|]. left. now split.
  - rewrite H. cbn [fst snd]. split; [reflexivity|]. right. now split.
Qed.

(** X14.  Given a pointer to a struct, [Deserialize] panics exactly when the map
    cannot be written into some field: the map has the field's name as a
    key and the field is unexported, or the entry is nil, or its type is
    not assignable to the field's type.  Otherwise it returns nil and
    every field holds the map's entry under its name (at the field's
    type, unless the field is of interface type) or, if the map has no
    such key, what it held before. *)
Theorem X14_deserialize_writes `{T : Types} (r : Result) (pt st : rtype)
        (fields : list (StructField * any)) :
  (fst (Deserialize r (Some (VPointer pt (Some (VStruct st fields))))) = Panics
   <-> Exists (fun f => refused r f = true) fields)
  /\ (fst (Deserialize r (Some (VPointer pt (Some (VStruct st fields))))) = Returns None
      <-> Forall (fun f => refused r f = false) fields)
  /\ (Forall (fun f => refused r f = false) fields ->
      snd (Deserialize r (Some (VPointer pt (Some (VStruct st fields)))))
      = Some (VPointer pt (Some (VStruct st (map (fun f => (fst f, written r f)) fields))))).
Proof.
  rewrite Deserialize_struct. cbn [fst snd]. split; [|split].
  - rewrite <- writeAll_panics. destruct (fst (writeAll r fields)); split; congruence.
  - rewrite <- writeAll_returns. destruct (fst (writeAll r fields)); split; congruence.
  - intros H. now rewrite writeAll_ok.
Qed.

(** X15.  A panic does not undo what was written: when the first field the map
    cannot be written into comes after other fields, the call panics and
    leaves those earlier fields written, that field and the later ones
    as they were. *)
Theorem X15_panic_keeps_earlier_writes `{T : Types} (r : Result) (pt st : rtype)
        (before after : list (StructField * any)) (f : StructField * any) :
  Forall (fun f => refused r f = false) before ->
  refused r f = true ->
  Deserialize r (Some (VPointer pt (Some (VStruct st (before ++ f :: after)))))
  = (Panics,
     Some (VPointer pt (Some (VStruct st
        (map (fun f => (fst f, written r f)) before ++ f :: after))))).
Proof.
  intros Hb Hf. rewrite Deserialize_struct, writeAll_stop by assumption. reflexivity.
Qed.

Lemma X15_panic_keeps_earlier_writes_witness :
  let r : option (gmap string (option (@Value named))) :=
    Some (<["Name" := Some (VString ("string" : @rtype named) "khaled")]>
            (<["Age" := Some (VString ("string" : @rtype named) "28")]> ∅)) in
  fst (@Deserialize named r (Some pr)) = Panics
  /\ snd (@Deserialize named r (Some pr))
     = Some (VPointer ("*jsonserilizer.Person" : @rtype named)
               (Some (VStruct ("jsonserilizer.Person" : @rtype named) (person "khaled" 0)))).
Proof.
  intros r.
  pose proof (@X15_panic_keeps_earlier_writes named r
                ("*jsonserilizer.Person" : @rtype named)
                ("jsonserilizer.Person" : @rtype named)
                [ ({| Name := "Name"; PkgPath := EmptyString; Typ := "string" : @rtype named |},
                   Some (VString ("string" : @rtype named) EmptyString)) ]
                []
                ({| Name := "Age"; PkgPath := EmptyString; Typ := "int" : @rtype named |},
                 Some (VInt Reflect.KInt ("int" : @rtype named) 0))
                ltac:(repeat constructor) eq_refl) as H.
  split; [exact (f_equal fst H)|exact (f_equal snd H)].
Defined.

(** X16.  Whatever the map and however the call ends, [Deserialize] leaves behind
    the same pointer to a struct of the same type with the same fields
    declared, and a field whose name is not a key of the map holds what
    it held.  With the nil map or an empty map nothing is written and
    the call returns nil, unexported fields or not. *)
Theorem X16_deserialize_frame `{T : Types} (r : Result) (pt st : rtype)
        (fields : list (StructField * any)) :
  (exists fields',
      snd (Deserialize r (Some (VPointer pt (Some (VStruct st fields)))))
      = Some (VPointer pt (Some (VStruct st fields')))
      /\ map fst fields' = map fst fields
      /\ forall (i : nat) f, fields !! i = Some f -> index r (Name (fst f)) = None ->
                             fields' !! i = Some f)
  /\ Deserialize None (Some (VPointer pt (Some (VStruct st fields))))
     = (Returns None, Some (VPointer pt (Some (VStruct st fields))))
  /\ Deserialize (Some ∅) (Some (VPointer pt (Some (VStruct st fields))))
     = (Returns None, Some (VPointer pt (Some (VStruct st fields)))).
Proof.
  rewrite !Deserialize_struct. cbn [snd]. split; [|split].
  - exists (snd (writeAll r fields)). split; [reflexivity|]. split.
    + apply writeAll_decl.
    + intros i f. apply writeAll_frame.
  - now rewrite writeAll_nokey.
  - rewrite writeAll_nokey; [reflexivity|]. intros k. apply lookup_empty.
Qed.

(** X18.  [Deserialize] is idempotent: run again with the same map on what the
    first call left, it ends the same way and changes nothing more. *)
Theorem X18_deserialize_idempotent `{T : Types} (r : Result) (refOut : any) :
  Deserialize r (snd (Deserialize r refOut)) = Deserialize r refOut.
Proof.
  destruct (Deserialize_cases refOut) as [(pt & st & fields & ->)|[[Hk H]|[Hk H]]].
  - rewrite Deserialize_struct. cbn [snd]. rewrite Deserialize_struct.
    now rewrite writeAll_again.
  - rewrite (H r). cbn [snd]. apply H.
  - rewrite (H r). cbn [snd]. apply H.
Qed.

End DeserializeFacts.

Section RoundTrip.
Import jsonserilizer.

Lemma withType_same `{T : Types} (x : Value) : withType (TypeOf x) x = x.
Proof. now destruct x. Qed.

Lemma written_back `{T : Types} (m : gmap string any) field c c' :
  m !! Name field = Some c -> c <> None -> holds (field, c) ->
  IsExported field = true ->
  refused (Some m) (field, c') = false /\ written (Some m) (field, c') = c.
Proof.
  intros Hm Hc Hh Hx. unfold refused, written, holds in *. cbn [fst snd index] in *.
  rewrite Hm, Hx. cbn [negb]. destruct c as [x|]; [|congruence].
  destruct (IsInterface (Typ field)).
  - now rewrite Hh.
  - rewrite <- Hh, AssignableTo_refl, withType_same. now split.
Qed.

Lemma writeAll_back `{T : Types} (m : gmap string any) fs fs' :
  map fst fs' = map fst fs ->
  Forall (fun f => m !! Name (fst f) = Some (snd f) /\ snd f <> None /\ holds f
                   /\ IsExported (fst f) = true) fs ->
  writeAll (Some m) fs' = (false, fs).
Proof.
  intros Hd H. revert fs' Hd.
  induction H as [|[field c] fs (Hm & Hc & Hh & Hx) _ IH]; intros fs' Hd.
  - destruct fs'; [reflexivity|discriminate].
  - destruct fs' as [|[field' c'] fs']; [discriminate|].
    cbn [map fst] in Hd. injection Hd as -> Hd. cbn [fst snd] in *.
    destruct (written_back m field c c' Hm Hc Hh Hx) as [Hr Hw].
    cbn [writeAll]. rewrite Hr, Hw, (IH fs' Hd). reflexivity.
Qed.

(** X17.  Round trip.  Take a struct whose fields are all exported and hold
    contents of their types, none of them a nil interface.  [Serialize]
    returns a map, and [Deserialize] of that map into a pointer to any
    struct with the same fields declared returns nil and leaves the
    target's fields holding exactly the contents of the source. *)
Theorem X17_round_trip `{T : Types} (t pt t' : rtype)
        (fields fields' : list (StructField * any)) :
  Forall (fun f => IsExported (fst f) = true) fields ->
  NoDup (map (fun f => Name (fst f)) fields) ->
  Forall (fun f => snd f <> None /\ holds f) fields ->
  map fst fields' = map fst fields ->
  exists m,
    Serialize (Some (VStruct t fields)) = Returns (Some m)
    /\ Deserialize (Some m) (Some (VPointer pt (Some (VStruct t' fields'))))
       = (Returns None, Some (VPointer pt (Some (VStruct t' fields)))).
Proof.
  intros Hx Hnd Hh Hd. exists (readAll fields ∅). split.
  - rewrite Serialize_struct.
    assert (E : forallb (fun f => IsExported (fst f)) fields = true).
    { apply forallb_forall. intros f Hf.
      apply (proj1 (Forall_forall _ _) Hx f). now apply list_elem_of_In. }
    now rewrite E.
  - rewrite Deserialize_struct.
    rewrite (writeAll_back (readAll fields ∅) fields fields' Hd); [reflexivity|].
    apply Forall_forall. intros f Hf. apply list_elem_of_In in Hf.
    destruct (proj1 (Forall_forall _ _) Hh f (proj2 (list_elem_of_In _ _) Hf)) as [Hc Hhold].
    split; [now apply readAll_hit|]. split; [exact Hc|]. split; [exact Hhold|].
    apply (proj1 (Forall_forall _ _) Hx f). now apply list_elem_of_In.
Qed.

Lemma X17_round_trip_witness :
  exists m,
    @Serialize named (Some p) = Returns (Some m)
    /\ @Deserialize named (Some m) (Some pr)
       = (Returns None, Some (VPointer ("*jsonserilizer.Person" : @rtype named) (Some p))).
Proof.
  refine (@X17_round_trip named ("jsonserilizer.Person" : @rtype named)
            ("*jsonserilizer.Person" : @rtype named)
            ("jsonserilizer.Person" : @rtype named)
            (person "khaled" 28) (person EmptyString 0) _ _ _ eq_refl).
  - repeat constructor.
  - apply NoDup_cons. split; [|apply NoDup_singleton].
    intros H. inversion H as [|? ? ? H']; subst. inversion H'.
  - repeat constructor; discriminate.
Defined.

Lemma readAll_written `{T : Types} r fs (m : gmap string any) f :
  NoDup (map (fun f => Name (fst f)) fs) -> In f fs ->
  readAll (map (fun f => (fst f, written r f)) fs) m !! Name (fst f)
  = Some (written r f).
Proof.
  intros Hnd Hin.
  apply (readAll_hit (map (fun f => (fst f, written r f)) fs) m (fst f, written r f)).
  - now rewrite map_map.
  - apply in_map_iff. now exists f.
Qed.

(** X19.  What [Deserialize] wrote, [Serialize] reads back.  When the struct has
    only exported fields and the map can be written into each of them,
    serializing the struct after the call gives a map in which every
    field is found under its name with the content the call left in it:
    the entry of the first map if it had the field's name as a key, the
    field's previous content otherwise. *)
Theorem X19_read_after_write `{T : Types} (r : Result) (pt st : rtype)
        (fields : list (StructField * any)) :
  Forall (fun f => IsExported (fst f) = true) fields ->
  NoDup (map (fun f => Name (fst f)) fields) ->
  Forall (fun f => refused r f = false) fields ->
  exists after m,
    Deserialize r (Some (VPointer pt (Some (VStruct st fields))))
    = (Returns None, Some (VPointer pt (Some after)))
    /\ Serialize (Some after) = Returns (Some m)
    /\ forall f, In f fields ->
                 m !! Name (fst f)
                 = Some (match index r (Name (fst f)) with
                         | Some (Some x) =>
                             Some (if IsInterface (Typ (fst f)) then x
                                   else withType (Typ (fst f)) x)
                         | _ => snd f
                         end).
Proof.
  intros Hx Hnd Hr.
  exists (VStruct st (map (fun f => (fst f, written r f)) fields)),
         (readAll (map (fun f => (fst f, written r f)) fields) ∅).
  split; [|split].
  - rewrite Deserialize_struct, writeAll_ok by exact Hr. reflexivity.
  - rewrite Serialize_struct.
    assert (E : forallb (fun f => IsExported (fst f))
                        (map (fun f => (fst f, written r f)) fields) = true).
    { apply forallb_forall. intros g Hg. apply in_map_iff in Hg as (f & <- & Hf).
      apply (proj1 (Forall_forall _ _) Hx f). now apply list_elem_of_In. }
    now rewrite E.
  - intros f Hf. now apply readAll_written.
Qed.

Lemma X19_read_after_write_witness :
  exists after m,
    @Deserialize named
      (Some (<["Name" := Some (VString ("string" : @rtype named) "khaled")]> ∅))
      (Some pr)
    = (Returns None, Some (VPointer ("*jsonserilizer.Person" : @rtype named) (Some after)))
    /\ @Serialize named (Some after) = Returns (Some m)
    /\ m !! "Name" = Some (Some (VString ("string" : @rtype named) "khaled"))
    /\ m !! "Age" = Some (Some (VInt Reflect.KInt ("int" : @rtype named) 0)).
Proof.
  destruct (@X19_read_after_write named
              (Some (<["Name" := Some (VString ("string" : @rtype named) "khaled")]> ∅))
              ("*jsonserilizer.Person" : @rtype named)
              ("jsonserilizer.Person" : @rtype named)
              (person EmptyString 0))
    as (after & m & Hd & Hs & Hm).
  - repeat constructor.
  - apply NoDup_cons. split; [|apply NoDup_singleton].
    intros H. inversion H as [|? ? ? H']; subst. inversion H'.
  - repeat constructor.
  - exists after, m. split; [exact Hd|]. split; [exact Hs|]. split.
    + exact (Hm _ (or_introl eq_refl)).
    + exact (Hm _ (or_intror (or_introl eq_refl))).
Defined.

End RoundTrip.

(** ** The validator of [ExampleFour] and more on the rules *)

Section ExampleFourFacts.
Import Reflect validator ExampleFour.

Lemma rule_required `{O : Regexp.Oracle} typ s name :
  applyValidationRule "required" (VString typ s) name
  = match s with
    | EmptyString => Some (errorString "field is required")
    | String.String _ _ => None
    end.
Proof. destruct s; reflexivity. Qed.

Lemma builtinErrors_custom_field `{O : Regexp.Oracle} name token text :
  builtin (ruleName token) = false ->
  Strings.Split ("required," +:+ token) "," = ["required"; token] ->
  builtinErrors (field name ("required," +:+ token), VString "string" text)
  = missing name text.
Proof.
  intros Hb Hs. unfold builtinErrors. cbn [fst snd field Tag Name Get].
  change (String.eqb validate validate) with true. cbv iota.
  change (String.eqb ("required," +:+ token) EmptyString) with false. cbv iota.
  rewrite Hs. cbn [flat_map].
  rewrite rule_required, (applyValidationRule_unknown _ _ _ Hb).
  destruct text; reflexivity.
Qed.

(** X20.  The validator of [ExampleFour] on any [Test] record.  The aggregate
    is, in this order: the fields left empty, then ["invalid email
    format"] if the email text does not match the email pattern, then
    the department entry if the department does not start with [DEP_]
    (the message says [DEPT_]).  The function registered under
    [valid_username] is run on every call and never fails: no text of
    [Username], with or without underscore, adds an entry other than
    the one for an empty field. *)
Theorem X20_example_four `{O : Regexp.Oracle} (ptyp Username Department Email : string) :
  errors (snd (fst (Validate v (Some (VPointer ptyp (Some (Test Username Department Email)))))))
  = missing "Username" Username
    ++ missing "Department" Department
    ++ missing "Email" Email
    ++ (if isMatchedRegex Email emailRegexPattern then []
        else [ {| Field := "Email"; Message := "invalid email format" |} ])
    ++ (if HasPrefix Department "DEP_" then []
        else [ {| Field := "Department";
                  Message := "department must start with DEPT_" |} ])
  /\ map callToken (snd (Validate v (Some (VPointer ptyp (Some (Test Username Department Email))))))
     = ["valid_username"; "valid_department"]
  /\ (forall field, valid_username field = None).
Proof.
  unfold Test. rewrite Validate_struct. cbn [fst snd errors]. unfold aggregate.
  split; [|split; [|reflexivity]].
  - cbn [flat_map].
    rewrite (builtinErrors_custom_field "Username" "valid_username") by reflexivity.
    rewrite (builtinErrors_custom_field "Department" "valid_department") by reflexivity.
    assert (He : builtinErrors (field "Email" "required,email", VString "string" Email)
                 = missing "Email" Email
                   ++ (if isMatchedRegex Email emailRegexPattern then []
                       else [ {| Field := "Email"; Message := "invalid email format" |} ])).
    { unfold builtinErrors. cbn [fst snd field Tag Name Get].
      change (String.eqb validate validate) with true. cbv iota.
      change (String.eqb "required,email" EmptyString) with false. cbv iota.
      change (Strings.Split "required,email" ",") with ["required"; "email"].
      cbn [flat_map]. rewrite rule_required.
      rewrite (applyValidationRule_email "email") by reflexivity.
      cbn [Reflect.String].
      destruct Email; destruct (isMatchedRegex _ emailRegexPattern); reflexivity. }
    rewrite He.
    assert (Hu : customErrors (customValidators v)
                   (field "Username" "required,valid_username", VString "string" Username) = []).
    { reflexivity. }
    assert (Hd : customErrors (customValidators v)
                   (field "Department" "required,valid_department", VString "string" Department)
                 = if HasPrefix Department "DEP_" then []
                   else [ {| Field := "Department";
                             Message := "department must start with DEPT_" |} ]).
    { unfold customErrors. cbn [fst snd field Tag Name Get].
      change (String.eqb validate validate) with true. cbv iota.
      change (String.eqb "required,valid_department" EmptyString) with false. cbv iota.
      change (Strings.Split "required,valid_department" ",")
        with ["required"; "valid_department"].
      cbn [flat_map].
      change (customValidators v !! "required") with (@None CustomValidatorFunc).
      change (customValidators v !! "valid_department") with (Some valid_department).
      unfold valid_department. cbn [Reflect.String].
      destruct (HasPrefix Department "DEP_"); reflexivity. }
    assert (Hm : customErrors (customValidators v)
                   (field "Email" "required,email", VString "string" Email) = []).
    { reflexivity. }
    rewrite Hu, Hd, Hm. rewrite ?app_nil_r, ?app_nil_l, <- ?app_assoc. reflexivity.
  - reflexivity.
Qed.

End ExampleFourFacts.

Section MoreRuleFacts.
Import Reflect validator Shape.
Import Strings.

(** X21.  The bounds are enforced on strings and signed integers only.  On a
    field of any other kind (unsigned, float, bool, slice, map, struct,
    pointer, ...) a [min] or [max] rule whose bound [Atoi] accepts
    passes, whatever the field holds. *)
Theorem X21_bounds_skip_other_kinds `{O : Regexp.Oracle} (rule : string) (v : Value)
        (name : string) (n : Z) :
  ruleName rule = min \/ ruleName rule = max ->
  Strconv.Atoi (ruleValue rule) = Some n ->
  match v with
  | VString _ _ | VInt _ _ _ => True
  | VStruct _ _ _ | VPointer _ _ | VOpaque _ _ _ =>
      applyValidationRule rule v name = None
  end.
Proof.
  intros Hn Hb.
  assert (H : applyValidationRule rule v name
              = if String.eqb (ruleName rule) min then validateMin v (ruleValue rule)
                else validateMax v (ruleValue rule)).
  { unfold applyValidationRule. destruct Hn as [-> | ->]; reflexivity. }
  destruct v as [typ s|k typ i|typ zero fields|typ elem|k typ zero]; try exact I;
    rewrite H; unfold validateMin, validateMax; rewrite Hb;
    try destruct k; destruct (String.eqb (ruleName rule) min); reflexivity.
Qed.

Lemma X21_bounds_skip_other_kinds_witness :
  @applyValidationRule Regexp.silent "min=18" (VOpaque KUint "uint" false) "Age" = None.
Proof.
  exact (@X21_bounds_skip_other_kinds Regexp.silent "min=18" (VOpaque KUint "uint" false)
           "Age" 18 (or_introl eq_refl) eq_refl).
Defined.

(** X22.  A [regex] rule without a pattern never fails: the bare token [regex],
    [regex=] and [regex=] followed by spaces hand the empty pattern to
    [MatchString], and the empty pattern matches every text. *)
Theorem X22_regex_without_pattern `{O : Regexp.Oracle} (v : Value) (name : string) (n : nat) :
  applyValidationRule "regex" v name = None
  /\ applyValidationRule ("regex=" +:+ pad " " n) v name = None
  /\ (forall text, isMatchedRegex text EmptyString = true).
Proof.
  assert (Hm : forall text, isMatchedRegex text EmptyString = true).
  { intros text. rewrite (isMatchedRegex_parsed text EmptyString Regexp.EmptyMatch)
      by reflexivity.
    destruct (Utf8.runes text); reflexivity. }
  split; [|split; [|exact Hm]].
  - rewrite (applyValidationRule_regex "regex") by reflexivity.
    change (ruleValue "regex") with EmptyString. now rewrite Hm.
  - assert (Hs : Split ("regex=" +:+ pad " " n) "=" = ["regex"; pad " " n]).
    { change ("regex=" +:+ pad " " n) with ("regex" +:+ "=" +:+ pad " " n).
      apply Split_one; [reflexivity|]. clear. induction n; [reflexivity|exact IHn]. }
    assert (Hv : ruleValue ("regex=" +:+ pad " " n) = EmptyString).
    { unfold ruleValue. rewrite Hs. cbn [length Nat.ltb Nat.leb nth].
      pose proof (Trim_pad " " n 0 EmptyString eq_refl) as Ht.
      assert (He : pad " " n +:+ EmptyString +:+ pad " " 0 = pad " " n).
      { clear. induction n as [|n IH]; [reflexivity|].
        change (pad " " (S n) +:+ EmptyString +:+ pad " " 0)
          with (String.String " "%char (pad " " n +:+ EmptyString +:+ pad " " 0)).
        now rewrite IH. }
      now rewrite He in Ht. }
    rewrite applyValidationRule_regex.
    + rewrite Hv. now rewrite Hm.
    + unfold ruleName. rewrite Hs. reflexivity.
Qed.

Lemma TrimLeft_noByte c cut s : noByte c s = true -> noByte c (TrimLeft s cut) = true.
Proof.
  induction s as [|a s IH]; [reflexivity|]. cbn [TrimLeft].
  destruct (Ascii.eqb a cut); [|auto]. cbn [noByte].
  intros H. apply andb_true_iff in H as [_ H]. auto.
Qed.

Lemma TrimRight_noByte c cut s : noByte c s = true -> noByte c (TrimRight s cut) = true.
Proof.
  induction s as [|a s IH]; [reflexivity|]. cbn [TrimRight noByte].
  intros H. apply andb_true_iff in H as [Ha H]. specialize (IH H).
  destruct (TrimRight s cut) eqn:E.
  - destruct (Ascii.eqb a cut); [reflexivity|]. cbn [noByte]. now rewrite Ha.
  - cbn [noByte] in *. now rewrite Ha, IH.
Qed.

Lemma Trim_noByte c cut s : noByte c s = true -> noByte c (Trim s cut) = true.
Proof. intros H. unfold Trim. now apply TrimRight_noByte, TrimLeft_noByte. Qed.

Lemma Split_pieces sep s : Forall (fun piece => noByte sep piece = true) (Split s sep).
Proof.
  induction s as [|a s IH]; cbn [Split]; [repeat constructor|].
  destruct (Ascii.eqb a sep) eqn:Ha; [constructor; [reflexivity|exact IH]|].
  destruct (Split s sep) as [|piece rest]; [repeat constructor; cbn; now rewrite Ha|].
  inversion IH as [|? ? Hp Hr]; subst. constructor; [|exact Hr].
  cbn [noByte]. now rewrite Ha, Hp.
Qed.

Lemma Split_keeps c sep s :
  noByte c s = true -> Forall (fun piece => noByte c piece = true) (Split s sep).
Proof.
  induction s as [|a s IH]; cbn [Split noByte]; [repeat constructor|].
  intros H. apply andb_true_iff in H as [Ha H]. specialize (IH H).
  destruct (Ascii.eqb a sep); [constructor; [reflexivity|exact IH]|].
  destruct (Split s sep) as [|piece rest]; [repeat constructor; cbn; now rewrite Ha|].
  inversion IH as [|? ? Hp Hr]; subst. constructor; [|exact Hr].
  cbn [noByte]. now rewrite Ha, Hp.
Qed.

Lemma nth_noByte c (l : list string) (i : nat) :
  Forall (fun piece => noByte c piece = true) l -> noByte c (nth i l EmptyString) = true.
Proof.
  intros H. revert i. induction H as [|x l Hx _ IH]; intros [|i]; cbn [nth]; auto.
Qed.

(** X23.  What a rule can be given.  The name and the parameter of every token
    of an annotation are free of commas and of [=]: the annotation is
    cut at every comma and the token at every [=] before the rule sees
    them.  So no pattern of a [regex] rule can hold a comma (a counted
    repetition such as [{2,3}] is cut in two tokens) or an [=]. *)
Theorem X23_parameters_hold_no_separator (f : StructField * Value) (rule : string) :
  In rule (fieldTokens f) ->
  noByte "," (ruleName rule) = true /\ noByte "=" (ruleName rule) = true
  /\ noByte "," (ruleValue rule) = true /\ noByte "=" (ruleValue rule) = true.
Proof.
  intros Hin.
  assert (Hc : noByte "," rule = true).
  { unfold fieldTokens in Hin.
    destruct (String.eqb (Get (Tag (fst f)) validate) EmptyString); [destruct Hin|].
    exact (proj1 (List.Forall_forall _ _) (Split_pieces "," _) rule Hin). }
  pose proof (Split_keeps "," "=" rule Hc) as Hk.
  pose proof (Split_pieces "=" rule) as Hp.
  unfold ruleName, ruleValue. repeat split.
  - now apply Trim_noByte, nth_noByte.
  - now apply Trim_noByte, nth_noByte.
  - destruct (Nat.ltb 1 (length (Split rule "="))); [|reflexivity].
    now apply Trim_noByte, nth_noByte.
  - destruct (Nat.ltb 1 (length (Split rule "="))); [|reflexivity].
    now apply Trim_noByte, nth_noByte.
Qed.

Lemma X23_parameters_hold_no_separator_witness :
  ruleValue "regex=^a{2" = "^a{2"
  /\ noByte "," (ruleValue "regex=^a{2") = true.
Proof.
  split; [reflexivity|].
  exact (proj1 (proj2 (proj2 (X23_parameters_hold_no_separator
                         (field "Code" "regex=^a{2,3}$", VString "string" "aa")
                         "regex=^a{2" (or_introl eq_refl))))).
Defined.

End MoreRuleFacts.
